(** * The per-connection state machine of the embedded web server

    A shallow embedding of [webserver/connection.cpp]: the members of
    [http::server::connection] become a record, each member function a
    function from connection to connection, and every call that leaves the
    object (transport, liveness timer, connection manager, request handler)
    is appended to a chronological log kept next to the members. *)

From Stdlib Require Import ZArith List String Ascii Bool Arith Lia Permutation.
Import ListNotations.
Local Open Scope string_scope.
Local Open Scope list_scope.

(** ** Values exchanged with the collaborators *)

(** [boost::tribool], the result type of both decoders. *)
Inductive tribool := tb_true | tb_false | tb_indeterminate.

(** [if (result)]: only a definite true converts to true. *)
Definition tribool_is_true (t : tribool) : bool :=
  match t with tb_true => true | _ => false end.

(** [if (!result)]: only a definite false negates to true. *)
Definition tribool_is_false (t : tribool) : bool :=
  match t with tb_false => true | _ => false end.

(** [boost::system::error_code], by its value: zero is success. *)
Definition error_code := Z.

(** The default-constructed code a successful completion reports. *)
Definition success : error_code := 0%Z.

(** [boost::asio::error::broken_pipe] (EPIPE on POSIX). *)
Definition broken_pipe : error_code := 32%Z.

(** [boost::asio::error::operation_aborted] (ECANCELED on POSIX). *)
Definition operation_aborted : error_code := 125%Z.

(** [!error] *)
Definition ec_not (error : error_code) : bool := (error =? 0)%Z.

(** [error != boost::asio::error::operation_aborted] *)
Definition ec_differs_from_aborted (error : error_code) : bool :=
  negb (error =? operation_aborted)%Z.

(** The members of [request] and [reply] that connection.cpp touches. *)
Record request := mk_request {
  method : string;
  headers : list (string * string);
  keep_alive : bool;
  host : string
}.

Record reply := mk_reply {
  status : Z;
  content : string
}.

(** [reply::switching_protocols] and [reply::bad_request]. *)
Definition switching_protocols : Z := 101.
Definition bad_request : Z := 400.

(** [request request_;] as default-constructed at the top of [handle_read]. *)
Definition empty_request : request :=
  {| method := ""; headers := []; keep_alive := false; host := "" |}.

(** What [request_parser_.parse(request_, begin, begin + _buf.size())] leaves
    behind: either it returns (the tribool, the filled request and how far
    [begin] was advanced) or it throws, with the request as filled so far. *)
Inductive parse_outcome :=
| parse_returns (result : tribool) (req : request) (sizeread : nat)
| parse_throws (req : request).

(** The three values of [connection_type]. *)
Inductive connection_type_t :=
| connection_http
| connection_websocket
| connection_closing.

(** ** The log of calls that leave the connection object *)

Inductive event :=
| ev_async_handshake                       (* sslsocket_->async_handshake *)
| ev_timer_expires_from_now (seconds : Z)  (* timer_.expires_from_now + async_wait *)
| ev_timer_cancel                          (* timer_.cancel *)
| ev_async_read_some                       (* socket->async_read_some *)
| ev_async_write (buf : string)            (* boost::asio::async_write *)
| ev_socket_shutdown                       (* socket().shutdown(shutdown_both) *)
| ev_socket_close                          (* socket().close() *)
| ev_manager_stop                          (* connection_manager_.stop(shared_from_this()) *)
| ev_handle_request (req : request)        (* request_handler_.handle_request *)
| ev_store_session_id (req : request) (rep : reply)
| ev_log_error (msg : string).             (* _log.Log(LOG_ERROR, ...) *)

(** ** String helpers: [std::string::substr] and [boost::iequals] *)

(** [s.substr(pos, n)] for [pos <= s.size()]: at most [n] characters. *)
Definition substr (pos n : nat) (s : string) : string := substring pos n s.

(** [s.substr(pos)] for [pos <= s.size()]: the rest of the string. *)
Definition substr_from (pos : nat) (s : string) : string :=
  substring pos (String.length s - pos) s.

(** [std::toupper] in the classic locale. *)
Definition to_upper (a : ascii) : ascii :=
  let n := nat_of_ascii a in
  if ((97 <=? n) && (n <=? 122))%nat then ascii_of_nat (n - 32) else a.

(** [boost::iequals]: same length, and equal character by character after
    upper-casing both sides. *)
Fixpoint iequals (s t : string) : bool :=
  match s, t with
  | EmptyString, EmptyString => true
  | String a s', String b t' =>
      Ascii.eqb (to_upper a) (to_upper b) && iequals s' t'
  | _, _ => false
  end.

(** ** The connection object *)

Record connection := mk_connection {
  secure_ : bool;
  keepalive_ : bool;
  write_in_progress : bool;
  connection_type : connection_type_t;
  timeout_ : Z;
  host_endpoint_ : string;
  write_buffer : string;
  writeQ : list string;
  buf_ : string;               (* _buf: the input sequence of the streambuf *)
  (* the transport: writes handed to it whose completion handler has not run *)
  in_flight : list string;
  (* every call that left the object, oldest first *)
  log : list event
}.

(** The wall-clock stamp [m_lastresponse] is written by several members and
    read by none of them; it is left out of the record. *)

Definition set_keepalive (b : bool) (c : connection) : connection :=
  mk_connection (secure_ c) b (write_in_progress c) (connection_type c)
    (timeout_ c) (host_endpoint_ c) (write_buffer c) (writeQ c) (buf_ c)
    (in_flight c) (log c).

Definition set_write_in_progress (b : bool) (c : connection) : connection :=
  mk_connection (secure_ c) (keepalive_ c) b (connection_type c)
    (timeout_ c) (host_endpoint_ c) (write_buffer c) (writeQ c) (buf_ c)
    (in_flight c) (log c).

Definition set_connection_type (t : connection_type_t) (c : connection)
  : connection :=
  mk_connection (secure_ c) (keepalive_ c) (write_in_progress c) t
    (timeout_ c) (host_endpoint_ c) (write_buffer c) (writeQ c) (buf_ c)
    (in_flight c) (log c).

Definition set_host_endpoint (h : string) (c : connection) : connection :=
  mk_connection (secure_ c) (keepalive_ c) (write_in_progress c)
    (connection_type c) (timeout_ c) h (write_buffer c) (writeQ c) (buf_ c)
    (in_flight c) (log c).

Definition set_write_buffer (b : string) (c : connection) : connection :=
  mk_connection (secure_ c) (keepalive_ c) (write_in_progress c)
    (connection_type c) (timeout_ c) (host_endpoint_ c) b (writeQ c) (buf_ c)
    (in_flight c) (log c).

Definition set_writeQ (q : list string) (c : connection) : connection :=
  mk_connection (secure_ c) (keepalive_ c) (write_in_progress c)
    (connection_type c) (timeout_ c) (host_endpoint_ c) (write_buffer c) q
    (buf_ c) (in_flight c) (log c).

Definition set_buf (b : string) (c : connection) : connection :=
  mk_connection (secure_ c) (keepalive_ c) (write_in_progress c)
    (connection_type c) (timeout_ c) (host_endpoint_ c) (write_buffer c)
    (writeQ c) b (in_flight c) (log c).

Definition set_in_flight (w : list string) (c : connection) : connection :=
  mk_connection (secure_ c) (keepalive_ c) (write_in_progress c)
    (connection_type c) (timeout_ c) (host_endpoint_ c) (write_buffer c)
    (writeQ c) (buf_ c) w (log c).

(** Append one outgoing call to the log. *)
Definition emit (e : event) (c : connection) : connection :=
  mk_connection (secure_ c) (keepalive_ c) (write_in_progress c)
    (connection_type c) (timeout_ c) (host_endpoint_ c) (write_buffer c)
    (writeQ c) (buf_ c) (in_flight c) (log c ++ [e]).

(** The two constructors (plain and secure) initialise the members alike,
    apart from [secure_]; nothing has left the object yet. *)
Definition new_connection (secure : bool) (timeout : Z) : connection :=
  {| secure_ := secure; keepalive_ := false; write_in_progress := false;
     connection_type := connection_http; timeout_ := timeout;
     host_endpoint_ := ""; write_buffer := ""; writeQ := [];
     buf_ := ""; in_flight := []; log := [] |}.

(** ** The transport and the timer, as seen from the connection *)

(** [boost::asio::async_write(socket, buffer(write_buffer), handle_write)]:
    the transport takes the buffer; [handle_write] runs when it is done. *)
Definition transport_async_write (buf : string) (c : connection) : connection :=
  emit (ev_async_write buf) (set_in_flight (in_flight c ++ [buf]) c).

(** [_buf.commit(n)]: the first [n] bytes the transport stored in the prepared
    area join the input sequence. *)
Definition buf_commit (n : nat) (incoming : string) (c : connection) : connection :=
  set_buf (buf_ c ++ substr 0 n incoming)%string c.

(** [_buf.consume(n)]: drop [n] bytes from the front of the input sequence. *)
Definition buf_consume (n : nat) (c : connection) : connection :=
  set_buf (substr_from (Nat.min n (String.length (buf_ c))) (buf_ c)) c.

(** ** The collaborators declared outside connection.cpp *)

Class Collaborators := {
  (* request_parser_.reset(); request_parser_.parse(request_, begin, end) *)
  request_parser_parse : string -> parse_outcome;
  (* request_.get_req_header(&request_, name): NULL or the header's value *)
  get_req_header : request -> string -> option string;
  (* request_handler_.handle_request(request_, reply_) *)
  handle_request : request -> reply;
  (* reply_.to_string(method) *)
  reply_to_string : reply -> string -> string;
  (* reply::stock_reply(status) *)
  stock_reply : Z -> reply;
  (* websocket_handler.parse(begin, size, bytes_consumed, keepalive_):
     the tribool, bytes_consumed and the keep-alive flag it leaves *)
  websocket_parse : string -> bool -> tribool * nat * bool;
  (* the frames the framed-protocol codec builds *)
  build_close_frame : string -> string;
  build_liveness_probe : string
}.

Section Connection.

Context {collab : Collaborators}.

(** [connection::read_more] *)
Definition read_more (c : connection) : connection :=
  (* _buf.prepare(4096) reserves room and changes no member read elsewhere *)
  let c := emit (ev_timer_expires_from_now (timeout_ c)) c in
  if secure_ c then emit ev_async_read_some c
  else emit ev_async_read_some c.

(** [connection::start]; [peer] is
    [socket().remote_endpoint().address().to_string()]. *)
Definition start (peer : string) (c : connection) : connection :=
  let c := set_host_endpoint peer c in
  if secure_ c then emit ev_async_handshake c
  else read_more c.

(** [connection::SocketWrite] *)
Definition SocketWrite (buf : string) (c : connection) : connection :=
  (* if (write_in_progress) { /* something went wrong */ } has an empty body *)
  let c := set_write_in_progress true c in
  let c := set_write_buffer buf c in
  if secure_ c then transport_async_write (write_buffer c) c
  else transport_async_write (write_buffer c) c.

(** [connection::MyWrite] *)
Definition MyWrite (buf : string) (c : connection) : connection :=
  match connection_type c with
  | connection_http
  | connection_websocket =>
      if write_in_progress c then
        set_writeQ (writeQ c ++ [buf]) c
      else
        SocketWrite buf c
  | connection_closing => c
  end.

(** Modelled from the spec: [websocket_handler.SendClose] is defined outside
    connection.cpp.  The spec has a close notification built by the codec
    ([build_close_frame]) and enqueued for write on the connection. *)
Definition SendClose (data : string) (c : connection) : connection :=
  MyWrite (build_close_frame data) c.

(** Modelled from the spec: [websocket_handler.SendPing] is defined outside
    connection.cpp.  The spec has a liveness probe built by the codec
    ([build_liveness_probe]) and sent as a message on the connection. *)
Definition SendPing (c : connection) : connection :=
  MyWrite build_liveness_probe c.

(** [connection::stop] *)
Definition stop (c : connection) : connection :=
  let c :=
    match connection_type c with
    | connection_websocket => SendClose "" c
    | connection_closing => c
    | connection_http => c
    end in
  emit ev_socket_close c.

(** [connection::handle_timeout] *)
Definition handle_timeout (error : error_code) (c : connection) : connection :=
  if ec_differs_from_aborted error then
    match connection_type c with
    | connection_http => emit ev_manager_stop c
    | connection_websocket => SendPing c
    | connection_closing => c
    end
  else c.

(** [connection::handle_handshake] *)
Definition handle_handshake (error : error_code) (c : connection) : connection :=
  if secure_ c then
    if ec_not error then read_more c
    else emit ev_manager_stop c
  else c.

(** The host attached to a request: lines 250-253 of [handle_read]. *)
Definition request_host (host_endpoint : string) : string :=
  let h := host_endpoint in
  if String.eqb (substr 0 7 h) "::ffff:" then substr_from 7 h else h.

(** [connection::handle_read]; [incoming] is what the transport stored in the
    area prepared by [read_more]. *)
Definition handle_read (error : error_code) (bytes_transferred : nat)
    (incoming : string) (c : connection) : connection :=
  let c := emit ev_timer_cancel c in
  if ec_not error && (0 <? bytes_transferred)%nat then
    let c := buf_commit bytes_transferred incoming c in
    match connection_type c with
    | connection_http =>
        (* a throwing parser leaves [result] as default-constructed: false *)
        let '(result, request_, sizeread, c) :=
          match request_parser_parse (buf_ c) with
          | parse_returns r q n => (r, q, n, c)
          | parse_throws q =>
              (tb_false, q, 0,
               emit (ev_log_error "Exception parsing http request.") c)
          end in
        if tribool_is_true result then
          let c := buf_consume sizeread c in
          let pConnection := get_req_header request_ "Connection" in
          let c := set_keepalive
                     (match pConnection with
                      | Some v => iequals v "Keep-Alive"
                      | None => false
                      end) c in
          let request_ :=
            mk_request (method request_) (headers request_) (keepalive_ c)
              (request_host (host_endpoint_ c)) in
          let reply_ := handle_request request_ in
          let c := emit (ev_handle_request request_) c in
          let c := MyWrite (reply_to_string reply_ (method request_)) c in
          let c :=
            if (status reply_ =? switching_protocols)%Z then
              let c := set_connection_type connection_websocket c in
              let c := set_keepalive true c in
              emit (ev_store_session_id request_ reply_) c
            else c in
          if keepalive_ c then read_more c else c
        else if tribool_is_false result then
          let c := set_keepalive false c in
          let reply_ := stock_reply bad_request in
          let c := MyWrite (reply_to_string reply_ (method request_)) c in
          if keepalive_ c then read_more c else c
        else
          read_more c
    | connection_websocket
    | connection_closing =>
        let '(result, bytes_consumed, keepalive) :=
          websocket_parse (buf_ c) (keepalive_ c) in
        let c := set_keepalive keepalive c in
        let c := buf_consume bytes_consumed c in
        if tribool_is_true result then
          if keepalive_ c then read_more c
          else set_connection_type connection_closing c
        else if tribool_is_false result then
          read_more c
        else
          read_more c
    end
  else if ec_differs_from_aborted error then
    emit ev_manager_stop c
  else c.

(** [connection::handle_write] *)
Definition handle_write (error : error_code) (bytes_transferred : nat)
    (c : connection) : connection :=
  let c := set_write_in_progress false c in
  if ec_not error then
    match writeQ c with
    | front :: rest =>
        let c := SocketWrite front c in
        set_writeQ rest c
    | [] =>
        if negb (keepalive_ c) then
          let c := emit ev_socket_shutdown c in
          emit ev_manager_stop c
        else c
    end
  else c.

End Connection.

(** ** The environment: completions and calls made on the connection *)

(** The transport finishes its oldest outstanding write and runs the bound
    completion handler, [handle_write]; with nothing outstanding there is no
    completion to deliver. *)
Definition complete_write (error : error_code)
    (c : connection) : option connection :=
  match in_flight c with
  | [] => None
  | done :: rest =>
      Some (handle_write error (String.length done) (set_in_flight rest c))
  end.

(** One call made on a connection from outside. *)
Inductive call :=
| call_start (peer : string)
| call_handshake_done (error : error_code)
| call_read_done (error : error_code) (bytes_transferred : nat) (incoming : string)
| call_timeout (error : error_code)
| call_MyWrite (buf : string)
| call_write_done (error : error_code)
| call_stop.

Definition perform {collab : Collaborators} (k : call) (c : connection)
  : option connection :=
  match k with
  | call_start peer => Some (start peer c)
  | call_handshake_done error => Some (handle_handshake error c)
  | call_read_done error n incoming => Some (handle_read error n incoming c)
  | call_timeout error => Some (handle_timeout error c)
  | call_MyWrite buf => Some (MyWrite buf c)
  | call_write_done error => complete_write error c
  | call_stop => Some (stop c)
  end.

Fixpoint run {collab : Collaborators} (calls : list call) (c : connection)
  : option connection :=
  match calls with
  | [] => Some c
  | k :: rest =>
      match perform k c with
      | Some c' => run rest c'
      | None => None
      end
  end.

(** The call is a write request or a write completion that reports success. *)
Definition is_clean_write_call (k : call) : bool :=
  match k with
  | call_MyWrite _ => true
  | call_write_done error => ec_not error
  | _ => false
  end.

(** The buffers the write requests of a call sequence pass, in call order. *)
Fixpoint requested (calls : list call) : list string :=
  match calls with
  | [] => []
  | call_MyWrite buf :: rest => buf :: requested rest
  | _ :: rest => requested rest
  end.

(** ** Observations on a connection *)

(** The buffers handed to the transport, in the order they reached it. *)
Fixpoint writes_of (l : list event) : list string :=
  match l with
  | [] => []
  | ev_async_write buf :: rest => buf :: writes_of rest
  | _ :: rest => writes_of rest
  end.

Definition wire (c : connection) : list string := writes_of (log c).

(** How many reads a log issues. *)
Fixpoint reads_of (l : list event) : nat :=
  match l with
  | [] => 0
  | ev_async_read_some :: rest => S (reads_of rest)
  | _ :: rest => reads_of rest
  end.

(** The calls that tear a connection down. *)
Definition is_teardown (e : event) : bool :=
  match e with
  | ev_socket_shutdown | ev_socket_close | ev_manager_stop => true
  | _ => false
  end.

(** Accepted buffers whose write has not completed: the one with the
    transport, then the queue. *)
Definition pending (c : connection) : list string := in_flight c ++ writeQ c.

(** The flag [write_in_progress] and [write_buffer] describe what the
    transport is writing. *)
Definition transport_agrees (c : connection) : Prop :=
  in_flight c = if write_in_progress c then [write_buffer c] else [].

(** Nothing waits in the queue while the transport is idle. *)
Definition idle_queue_empty (c : connection) : Prop :=
  write_in_progress c = false -> writeQ c = [].

(** The parser did not accept the buffer: it returned false or threw. *)
Definition rejected (o : parse_outcome) : option request :=
  match o with
  | parse_returns tb_false req _ => Some req
  | parse_throws req => Some req
  | parse_returns _ _ _ => None
  end.

(** The request as [handle_read] hands it to the request handler. *)
Definition dispatched {collab : Collaborators} (req : request) (c : connection) : request :=
  mk_request (method req) (headers req)
    (match get_req_header req "Connection" with
     | Some v => iequals v "Keep-Alive"
     | None => false
     end)
    (request_host (host_endpoint_ c)).

(** The request carries a Connection header whose value is keep-alive in any
    letter case. *)
Definition asks_keep_alive {collab : Collaborators} (req : request) : bool :=
  match get_req_header req "Connection" with
  | Some v => iequals v "keep-alive"
  | None => false
  end.

(** Upper-casing a whole string. *)
Fixpoint upper (s : string) : string :=
  match s with
  | EmptyString => EmptyString
  | String a s' => String (to_upper a) (upper s')
  end.

(** Peer-address normalisation as the specification words it: a leading
    ["::ffff:"] is cut off, any other address is kept. *)
Fixpoint strip_prefix (p s : string) : option string :=
  match p, s with
  | EmptyString, _ => Some s
  | String a p', String b s' =>
      if Ascii.eqb a b then strip_prefix p' s' else None
  | String _ _, EmptyString => None
  end.

Definition normalised_peer (peer : string) : string :=
  match strip_prefix "::ffff:" peer with
  | Some rest => rest
  | None => peer
  end.

(** The requests a log hands to the request handler, oldest first. *)
Fixpoint requests_of (l : list event) : list request :=
  match l with
  | [] => []
  | ev_handle_request req :: rest => req :: requests_of rest
  | _ :: rest => requests_of rest
  end.

(** The events [handle_read] logs before it looks at the decoder's verdict:
    the timer is cancelled, and a throwing parser is reported. *)
Definition read_prologue (o : parse_outcome) : list event :=
  match o with
  | parse_returns _ _ _ => [ev_timer_cancel]
  | parse_throws _ =>
      [ev_timer_cancel; ev_log_error "Exception parsing http request."]
  end.

(** [n] write completions in a row, all reporting success. *)
Definition completions (n : nat) : list call :=
  repeat (call_write_done success) n.

(** ** Sample collaborators, for concrete runs *)

Module Sample.

Definition find_header (req : request) (name : string) : option string :=
  match find (fun h => String.eqb (fst h) name) (headers req) with
  | Some h => Some (snd h)
  | None => None
  end.

Definition keep_alive_request : request :=
  mk_request "GET" [("Connection", "KEEP-alive")] false "".

Definition upgrade_request : request :=
  mk_request "GET" [("Upgrade", "websocket")] false "".

(** A toy decoder: three complete requests, a partial one, one that makes it
    throw, all else malformed. *)
Definition parse (s : string) : parse_outcome :=
  if String.eqb s "GET /ka" then parse_returns tb_true keep_alive_request 7
  else if String.eqb s "GET /ws" then parse_returns tb_true upgrade_request 7
  else if String.eqb s "GET /" then
    parse_returns tb_true (mk_request "GET" [] false "") 5
  else if String.eqb s "GE" then
    parse_returns tb_indeterminate empty_request 2
  else if String.eqb s "BOOM" then
    parse_throws empty_request
  else
    parse_returns tb_false empty_request 0.

Definition handler (req : request) : reply :=
  match find_header req "Upgrade" with
  | Some _ => mk_reply 101 ""
  | None => mk_reply 200 ("hello " ++ host req)%string
  end.

Definition to_string (rep : reply) (meth : string) : string :=
  if (status rep =? 101)%Z then "101"
  else if (status rep =? 400)%Z then "400"
  else ("200 " ++ content rep)%string.

Definition frames (s : string) (keepalive : bool) : tribool * nat * bool :=
  if String.eqb s "CLOSE" then (tb_true, 5, false)
  else (tb_indeterminate, 0, keepalive).

Definition collaborators : Collaborators :=
  {| request_parser_parse := parse;
     get_req_header := find_header;
     handle_request := handler;
     reply_to_string := to_string;
     stock_reply := fun st => mk_reply st "";
     websocket_parse := frames;
     build_close_frame := fun data => ("<close>" ++ data)%string;
     build_liveness_probe := "<ping>" |}.

(** A plain connection accepted from a peer, with a 20 second timeout. *)
Definition fresh (peer : string) : connection :=
  start peer (new_connection false 20).

Definition client : connection := Eval vm_compute in fresh "10.0.0.5".

(** The same connection after it upgraded to the framed push protocol. *)
Definition upgraded : connection :=
  Eval vm_compute in
    handle_read (collab := collaborators) success 7 "GET /ws" client.

(** The upgraded connection once its upgrade response is written, and then
    after the peer's close frame arrived. *)
Definition settled : connection :=
  Eval vm_compute in handle_write success 3 (set_in_flight [] upgraded).

Definition closing : connection :=
  Eval vm_compute in
    handle_read (collab := collaborators) success 5 "CLOSE" settled.

(** A plain connection with one response still being written. *)
Definition answering : connection :=
  Eval vm_compute in
    handle_read (collab := collaborators) success 7 "GET /ka"
      (fresh "::ffff:10.0.0.5").

(** Three write requests around one completion. *)
Definition burst (error : error_code) : list call :=
  [call_MyWrite "a"; call_MyWrite "b"; call_write_done error;
   call_MyWrite "c"; call_write_done success].

End Sample.

(** ** Further observations on calls and logs *)

(** Where a mode stands in the order HTTP, framed push, closing. *)
Definition mode_rank (t : connection_type_t) : nat :=
  match t with
  | connection_http => 0
  | connection_websocket => 1
  | connection_closing => 2
  end.

(** The durations the liveness timer was armed with, oldest first. *)
Fixpoint arms_of (l : list event) : list Z :=
  match l with
  | [] => []
  | ev_timer_expires_from_now seconds :: rest => seconds :: arms_of rest
  | _ :: rest => arms_of rest
  end.

(** A read, timer or write completion that reports [operation_aborted]. *)
Definition is_cancelled_completion (k : call) : bool :=
  match k with
  | call_read_done error _ _ => (error =? operation_aborted)%Z
  | call_timeout error => (error =? operation_aborted)%Z
  | call_write_done error => (error =? operation_aborted)%Z
  | _ => false
  end.

(** The call is not a write completion that reports a failure. *)
Definition no_failed_write (k : call) : bool :=
  match k with
  | call_write_done error => ec_not error
  | _ => true
  end.

(** Successive successful reads, each delivering one whole chunk. *)
Definition feed {collab : Collaborators} (chunks : list string)
    (c : connection) : connection :=
  fold_left
    (fun c' chunk => handle_read success (String.length chunk) chunk c')
    chunks c.

(** All the chunks of a list, joined. *)
Fixpoint joined (chunks : list string) : string :=
  match chunks with
  | [] => ""
  | chunk :: rest => (chunk ++ joined rest)%string
  end.

(** The same connection with another history: [set_log] replaces the log,
    [prepend_log] puts earlier events in front of it. *)
Definition set_log (l : list event) (c : connection) : connection :=
  mk_connection (secure_ c) (keepalive_ c) (write_in_progress c)
    (connection_type c) (timeout_ c) (host_endpoint_ c) (write_buffer c)
    (writeQ c) (buf_ c) (in_flight c) l.

Definition prepend_log (l : list event) (c : connection) : connection :=
  set_log (l ++ log c) c.

(** * The interrupt front end of the GPIO driver ([hardware/Gpio.cpp]) *)

(** [MAX_GPIO] *)
Definition MAX_GPIO : Z := 31.

(** A signed integer of [bits] bits holding [z], wrapping around. *)
Definition wrap_signed (bits z : Z) : Z :=
  ((z + 2 ^ (bits - 1)) mod 2 ^ bits - 2 ^ (bits - 1))%Z.

(** Conversion to [int] and to [unsigned int] / [uint32_t]. *)
Definition to_int (z : Z) : Z := wrap_signed 32 z.
Definition to_uint (z : Z) : Z := (z mod 2 ^ 32)%Z.

(** [struct timeval]: both members are [long]. *)
Record timeval := mk_timeval { tv_sec : Z; tv_usec : Z }.

(** The instant a [timeval] denotes, in microseconds. *)
Definition micros (t : timeval) : Z := (tv_sec t * 1000000 + tv_usec t)%Z.

(** Seconds within thirty bits and microseconds below a million, as the
    clock delivers them. *)
Definition normalised (t : timeval) : Prop :=
  (- 2 ^ 30 <= tv_sec t < 2 ^ 30 /\ 0 <= tv_usec t < 1000000)%Z.

(** What the interrupt handlers log and signal. *)
Inductive gpio_event :=
| log_already_queued (gpioId : Z)
| log_queuing (gpioId : Z)
| notify_one.

(** The file-level state the interrupt handlers and the worker share. *)
Record interrupts := mk_interrupts {
  m_period : Z;
  interruptHigh : Z -> bool;
  gpioInterruptQueue : list Z;
  tvBegin : Z -> timeval;
  tvEnd : Z -> timeval;
  tvDiff : Z -> timeval;
  gpio_log : list gpio_event
}.

(** [a[i] = v] on an array indexed by pin number. *)
Definition store {A : Type} (a : Z -> A) (i : Z) (v : A) : Z -> A :=
  fun j => if (j =? i)%Z then v else a j.

(** [std::find(queue.begin(), queue.end(), gpioId) != queue.end()] *)
Definition queued (gpioId : Z) (queue : list Z) : bool :=
  existsb (Z.eqb gpioId) queue.

(** One thing that happens to the shared state: a pin's interrupt handler
    runs, with the two clock readings it takes, or the worker acknowledges
    the queued interrupts. *)
Inductive gpio_call :=
| interrupt (gpioId : Z) (now_end now_begin : timeval)
| worker_acknowledges.

Section Gpio.

(** The width of [long] on the target, in bits. *)
Variable long_bits : Z.

Definition to_long (z : Z) : Z := wrap_signed long_bits z.

(** [timeval_subtract(result, x, y)]: the value returned, [*result] and what
    is left in [*y]. *)
Definition timeval_subtract (x y : timeval) : Z * timeval * timeval :=
  let y :=
    if (tv_usec x <? tv_usec y)%Z then
      let nsec :=
        to_int (to_long (to_long (tv_usec y - tv_usec x) ÷ 1000000 + 1)) in
      let usec := to_long (tv_usec y - to_int (1000000 * nsec)) in
      mk_timeval (to_long (tv_sec y + nsec)) usec
    else y in
  let y :=
    if (to_long (tv_usec x - tv_usec y) >? 1000000)%Z then
      let nsec := to_int (to_long (tv_usec x - tv_usec y) ÷ 1000000) in
      let usec := to_long (tv_usec y + to_int (1000000 * nsec)) in
      mk_timeval (to_long (tv_sec y - nsec)) usec
    else y in
  let result :=
    mk_timeval (to_long (tv_sec x - tv_sec y))
      (to_long (tv_usec x - tv_usec y)) in
  ((if (tv_sec x <? tv_sec y)%Z then 1 else 0)%Z, result, y).

(** [pushInterrupt(gpioId)]; [now_end] and [now_begin] are what [getclock]
    stores in [tvEnd[gpioId]] and, later, in [tvBegin[gpioId]]. *)
Definition pushInterrupt (gpioId : Z) (now_end now_begin : timeval)
    (s : interrupts) : interrupts :=
  let tvEnd1 := store (tvEnd s) gpioId now_end in
  let '(negative, difference, begun) :=
    timeval_subtract (tvEnd1 gpioId) (tvBegin s gpioId) in
  let tvBegin1 := store (tvBegin s) gpioId begun in
  let tvDiff1 :=
    store (tvDiff s) gpioId
      (if (negative =? 0)%Z then difference else mk_timeval 0 0) in
  let diff :=
    to_uint
      (to_long (tv_usec (tvDiff1 gpioId)
                + to_long (tv_sec (tvDiff1 gpioId) * 1000000))) in
  let tvBegin2 := store tvBegin1 gpioId now_begin in
  if (diff >? to_uint (m_period s * 1000))%Z then
    let high := store (interruptHigh s) gpioId false in
    if queued gpioId (gpioInterruptQueue s) then
      mk_interrupts (m_period s) high (gpioInterruptQueue s)
        tvBegin2 tvEnd1 tvDiff1
        (gpio_log s ++ [log_already_queued gpioId; notify_one])
    else
      mk_interrupts (m_period s) high (gpioInterruptQueue s ++ [gpioId])
        tvBegin2 tvEnd1 tvDiff1
        (gpio_log s ++ [log_queuing gpioId; notify_one])
  else
    let high :=
      if negb (interruptHigh s gpioId)
      then store (interruptHigh s) gpioId true
      else interruptHigh s in
    mk_interrupts (m_period s) high (gpioInterruptQueue s)
      tvBegin2 tvEnd1 tvDiff1 (gpio_log s ++ [notify_one]).

(** The acknowledging loop of [Do_Work]: while the queue is not empty its
    front moves to the back of [triggers]. *)
Fixpoint acknowledge (queue triggers : list Z) : list Z * list Z :=
  match queue with
  | [] => (queue, triggers)
  | interruptNumber :: rest => acknowledge rest (triggers ++ [interruptNumber])
  end.

Definition gpio_perform (k : gpio_call) (s : interrupts) : interrupts :=
  match k with
  | interrupt gpioId now_end now_begin =>
      pushInterrupt gpioId now_end now_begin s
  | worker_acknowledges =>
      mk_interrupts (m_period s) (interruptHigh s)
        (fst (acknowledge (gpioInterruptQueue s) []))
        (tvBegin s) (tvEnd s) (tvDiff s) (gpio_log s)
  end.

Definition gpio_run (calls : list gpio_call) (s : interrupts) : interrupts :=
  fold_left (fun s' k => gpio_perform k s') calls s.

End Gpio.

(** The pins the interrupt handlers are compiled for. *)
Definition handled_pin (k : gpio_call) : Prop :=
  match k with
  | interrupt gpioId _ _ => (0 <= gpioId <= MAX_GPIO)%Z
  | worker_acknowledges => True
  end.

(** * The status messages of the GPIO driver *)

(** Conversion to [unsigned char] / [BYTE]. *)
Definition to_uchar (z : Z) : Z := (z mod 256)%Z.

(** The [LIGHTING1] member of [tRBUF]; every field is one byte ([rssi]
    stands for the byte shared by [filler] and [rssi]). *)
Record lighting1 := mk_lighting1 {
  packetlength : Z;
  packettype : Z;
  subtype : Z;
  seqnbr : Z;
  housecode : Z;
  unitcode : Z;
  cmnd : Z;
  rssi : Z
}.

(** What a [CGpio] object does to the pins, the database and the rest of the
    hub; [sleep_milliseconds] and the messages written to the log are left
    out. *)
Inductive hardware_event :=
| ev_digitalRead (pin : Z)
| ev_digitalWrite (pin value : Z)
| ev_safe_query (HardwareID Unit : Z)
| ev_sDecodeRXMessage (packet : lighting1).

Record CGpio := mk_CGpio {
  m_HwdID : Z;
  IOPinStatusPacket : lighting1;
  hardware_log : list hardware_event
}.

Definition set_packet (p : lighting1) (g : CGpio) : CGpio :=
  mk_CGpio (m_HwdID g) p (hardware_log g).

Definition hardware (e : hardware_event) (g : CGpio) : CGpio :=
  mk_CGpio (m_HwdID g) (IOPinStatusPacket g) (hardware_log g ++ [e]).

(** The packets handed to [sDecodeRXMessage], oldest first. *)
Fixpoint sent (l : list hardware_event) : list lighting1 :=
  match l with
  | [] => []
  | ev_sDecodeRXMessage packet :: rest => packet :: sent rest
  | _ :: rest => sent rest
  end.

(** One call that may report a pin: [result] is what the query of the
    device table returns and [value] / [state] what [digitalRead] returns. *)
Inductive status_call :=
| process_interrupt (gpioId : Z) (result : list (list string)) (value : Z)
| update_state (gpioId : Z) (forceUpdate : bool) (state : Z)
    (result : list (list string)).

(** Constants of the RFXtrx protocol header ([RFXtrx.h]), the size of the
    packet structure and the C library's [atoi]. *)
Class Externals := {
  pTypeLighting1 : Z;
  sTypeIMPULS : Z;
  light1_sOn : Z;
  light1_sOff : Z;
  sizeof_LIGHTING1 : Z;
  atoi : string -> Z
}.

Section Status.

Context {externals : Externals}.

(** The constructor, as far as the object goes: [raw] is the packet as
    allocated. *)
Definition new_CGpio (ID : Z) (raw : lighting1) : CGpio :=
  mk_CGpio ID
    (mk_lighting1 (to_uchar (sizeof_LIGHTING1 - 1)) (to_uchar pTypeLighting1)
       (to_uchar sTypeIMPULS) 0 0 (unitcode raw) (cmnd raw) 12)
    [].

(** The tail shared by [ProcessInterrupt] and [UpdateState]: fill in the
    command, the next sequence number and the unit, and hand the packet on. *)
Definition report (gpioId value : Z) (g : CGpio) : CGpio :=
  let p := IOPinStatusPacket g in
  let p :=
    if negb (value =? 0)%Z
    then mk_lighting1 (packetlength p) (packettype p) (subtype p) (seqnbr p)
           (housecode p) (unitcode p) (to_uchar light1_sOn) (rssi p)
    else mk_lighting1 (packetlength p) (packettype p) (subtype p) (seqnbr p)
           (housecode p) (unitcode p) (to_uchar light1_sOff) (rssi p) in
  let seqnr := to_uchar (seqnbr p + 1) in
  let p := mk_lighting1 (packetlength p) (packettype p) (subtype p) seqnr
             (housecode p) (unitcode p) (cmnd p) (rssi p) in
  let p := mk_lighting1 (packetlength p) (packettype p) (subtype p) (seqnbr p)
             (housecode p) (to_uchar gpioId) (cmnd p) (rssi p) in
  hardware (ev_sDecodeRXMessage p) (set_packet p g).

(** [(!result.empty()) && (result.size() > 0)] *)
Definition has_rows (result : list (list string)) : bool :=
  negb (match result with [] => true | _ => false end)
  && (0 <? List.length result)%nat.

(** [CGpio::ProcessInterrupt] *)
Definition ProcessInterrupt (gpioId : Z) (result : list (list string))
    (value : Z) (g : CGpio) : CGpio :=
  let g := hardware (ev_safe_query (m_HwdID g) gpioId) g in
  if has_rows result then
    let g := hardware (ev_digitalRead gpioId) g in
    report gpioId value g
  else g.

(** [CGpio::UpdateState]; the row read is [result[0]] and the stored state
    its second column. *)
Definition UpdateState (gpioId : Z) (forceUpdate : bool) (state : Z)
    (result : list (list string)) (g : CGpio) : CGpio :=
  let g := hardware (ev_digitalRead gpioId) g in
  let g := hardware (ev_safe_query (m_HwdID g) gpioId) g in
  let updateDatabase :=
    if has_rows result then
      if has_rows result then
        let sd := nth 0 result [] in
        let dbaseState := atoi (nth 1 sd "") in
        if negb (dbaseState =? state)%Z || forceUpdate then true else false
      else false
    else false in
  if updateDatabase then report gpioId state g else g.

(** [CGpio::WriteToHardware]; [oldValue] is what [digitalRead] returns. *)
Definition WriteToHardware (pCmd : lighting1) (oldValue : Z) (g : CGpio)
  : bool * CGpio :=
  if (packettype pCmd =? pTypeLighting1)%Z && (subtype pCmd =? sTypeIMPULS)%Z
  then
    if (housecode pCmd =? 0)%Z then
      let gpioId := unitcode pCmd in
      let g := hardware (ev_digitalRead gpioId) g in
      let newValue := cmnd pCmd in
      let g := hardware (ev_digitalWrite gpioId newValue) g in
      (true, g)
    else (false, g)
  else (false, g).

(** The header the constructor prepares. *)
Definition prepared (p : lighting1) : Prop :=
  packetlength p = to_uchar (sizeof_LIGHTING1 - 1) /\
  packettype p = to_uchar pTypeLighting1 /\
  subtype p = to_uchar sTypeIMPULS /\
  housecode p = 0%Z /\
  rssi p = 12%Z.

Definition status_perform (k : status_call) (g : CGpio) : CGpio :=
  match k with
  | process_interrupt gpioId result value =>
      ProcessInterrupt gpioId result value g
  | update_state gpioId forceUpdate state result =>
      UpdateState gpioId forceUpdate state result g
  end.

Definition status_run (calls : list status_call) (g : CGpio) : CGpio :=
  fold_left (fun g' k => status_perform k g') calls g.

(** Whether a call reports its pin, and the unit and command it reports. *)
Definition reports (k : status_call) : bool :=
  match k with
  | process_interrupt _ result _ => has_rows result
  | update_state _ forceUpdate state result =>
      has_rows result
      && (negb (atoi (nth 1 (nth 0 result []) "") =? state)%Z || forceUpdate)
  end.

Definition reported (k : status_call) : Z * Z :=
  match k with
  | process_interrupt gpioId _ value
  | update_state gpioId _ value _ =>
      (to_uchar gpioId,
       if (value =? 0)%Z then to_uchar light1_sOff else to_uchar light1_sOn)
  end.

End Status.

(** * The worker and the pin list of the GPIO driver *)

Section Worker.

Context {externals : Externals}.

(** The second loop of a round of [CGpio::Do_Work]: while [triggers] is not
    empty its front is erased and processed.  [readings] holds, for each
    interrupt processed, the rows the device table returns and the level
    [digitalRead] returns. *)
Fixpoint process_triggers (triggers : list Z)
    (readings : list (list (list string) * Z)) (g : CGpio) : list Z * CGpio :=
  match triggers, readings with
  | interruptNumber :: rest, (result, value) :: later =>
      process_triggers rest later
        (ProcessInterrupt interruptNumber result value g)
  | _, _ => (triggers, g)
  end.

(** One round of the loop of [CGpio::Do_Work] in which the condition was
    signalled and no stop was requested: the queue is acknowledged under the
    lock, then the triggers are processed.  [triggers] is empty when a round
    begins, the round before having emptied it. *)
Definition Do_Work_round (readings : list (list (list string) * Z))
    (s : interrupts) (g : CGpio) : interrupts * list Z * CGpio :=
  let '(queue, triggers) := acknowledge (gpioInterruptQueue s) [] in
  let s :=
    mk_interrupts (m_period s) (interruptHigh s) queue (tvBegin s) (tvEnd s)
      (tvDiff s) (gpio_log s) in
  let '(triggers, g) := process_triggers triggers readings g in
  (s, triggers, g).

(** The calls of [ProcessInterrupt] a round makes. *)
Definition round_calls (queue : list Z)
    (readings : list (list (list string) * Z)) : list status_call :=
  map (fun qr => process_interrupt (fst qr) (fst (snd qr)) (snd (snd qr)))
    (combine queue readings).

(** The device queries in a log. *)
Fixpoint queries (l : list hardware_event) : list (Z * Z) :=
  match l with
  | [] => []
  | ev_safe_query HardwareID Unit :: rest => (HardwareID, Unit) :: queries rest
  | _ :: rest => queries rest
  end.

End Worker.

(** [CGpioPin], with the members this file reads. *)
Record CGpioPin := mk_CGpioPin {
  GetId : Z;
  GetLabel : string;
  GetIsInput : bool;
  GetIsOutput : bool;
  GetIsExported : bool
}.

(** What [StartHardware] does for one pin of the list. *)
Inductive hook_event :=
| ev_wiringPiISR (pin : Z)
| ev_unknown_GPIO (pin : Z).

Section Pins.

Context {externals : Externals}.

(** The first loop of [CGpio::InitPins]; each line of [gpio exports] comes
    as the pieces [StringSplit] cuts it into at the colons. *)
Definition mark_export (exports : Z -> bool) (sresults : list string)
  : Z -> bool :=
  match sresults with
  | [] => exports
  | first :: _ =>
      if String.eqb first "GPIO Pins exported" then exports
      else if (2 <=? List.length sresults)%nat then
        let gpioNumber := atoi first in
        if (0 <=? gpioNumber)%Z && (gpioNumber <=? MAX_GPIO)%Z
        then store exports gpioNumber true
        else exports
      else exports
  end.

Definition exported (export_lines : list (list string)) : Z -> bool :=
  fold_left mark_export export_lines (fun _ => false).

(** One pin of a table line: the number, name, physical pin and mode are
    the fields [number], [name], [phys] and [mode]. *)
Definition push_pin (exports : Z -> bool) (fields : list string)
    (number name phys mode : nat) (pins : list CGpioPin) : list CGpioPin :=
  let gpioNumber := atoi (nth number fields "") in
  if (0 <=? gpioNumber)%Z && (gpioNumber <=? MAX_GPIO)%Z then
    pins ++ [mk_CGpioPin gpioNumber
               ("gpio" ++ nth number fields "" ++ " (" ++ nth name fields ""
                ++ ") on pin " ++ nth phys fields "")%string
               (String.eqb (nth mode fields "") "IN")
               (String.eqb (nth mode fields "") "OUT")
               (exports gpioNumber)]
  else pins.

(** The body of the second loop of [CGpio::InitPins]; each line of
    [gpio readall] comes as the trimmed pieces between its bars. *)
Definition read_line (exports : Z -> bool) (pins : list CGpioPin)
    (fields : list string) : list CGpioPin :=
  if (List.length fields <? 7)%nat then pins
  else if (List.length fields =? 7)%nat then
    if negb (String.eqb (nth 0 fields "") "wiringPi")
    then push_pin exports fields 1 3 2 4 pins
    else pins
  else if (List.length fields =? 15)%nat then
    let pins :=
      if (0 <? String.length (nth 1 fields ""))%nat
      then push_pin exports fields 1 3 6 4 pins
      else pins in
    if (0 <? String.length (nth 13 fields ""))%nat
    then push_pin exports fields 13 11 8 10 pins
    else pins
  else pins.

(** [CGpio::InitPins] up to the sorting of the list: the value returned and
    the pins in the order they were found.  [std::sort] then rearranges
    them by [CGpioPin::operator<]. *)
Definition InitPins (export_lines readall_lines : list (list string))
    (pins : list CGpioPin) : bool * list CGpioPin :=
  let exports := exported export_lines in
  let pins := fold_left (read_line exports) readall_lines pins in
  ((0 <? List.length pins)%nat, pins).

(** The loop of [CGpio::StartHardware] that hooks the interrupt handlers:
    an exported input pin numbered 0 to 31 gets its handler, any other
    number an error message. *)
Definition hook (pin : CGpioPin) : list hook_event :=
  if GetIsExported pin && GetIsInput pin then
    if (0 <=? GetId pin)%Z && (GetId pin <=? 31)%Z
    then [ev_wiringPiISR (GetId pin)]
    else [ev_unknown_GPIO (GetId pin)]
  else [].

Definition hook_handlers (pins : list CGpioPin) : list hook_event :=
  flat_map hook pins.

(** [CGpio::GetPPinById] *)
Fixpoint GetPPinById (pins : list CGpioPin) (id : Z) : option CGpioPin :=
  match pins with
  | [] => None
  | it :: rest => if (GetId it =? id)%Z then Some it else GetPPinById rest id
  end.

(** What holds of a pin found by [InitPins] for the given export lines. *)
Definition well_found (export_lines : list (list string)) (pin : CGpioPin)
  : Prop :=
  (0 <= GetId pin <= MAX_GPIO)%Z /\
  GetIsExported pin = exported export_lines (GetId pin) /\
  (GetIsInput pin && GetIsOutput pin = false).

End Pins.

(** ** Sample data for the GPIO driver *)

Module GpioSample.

(** [atoi] of the C library: blanks are skipped, a sign is read, then the
    decimal digits up to the first other character; the value is kept
    within [int] by wrapping around. *)
Definition is_space (a : ascii) : bool :=
  let d := nat_of_ascii a in
  ((d =? 32) || ((9 <=? d) && (d <=? 13)))%nat.

Fixpoint skip_spaces (s : string) : string :=
  match s with
  | String a rest => if is_space a then skip_spaces rest else s
  | EmptyString => s
  end.

Fixpoint digits (s : string) (acc : Z) : Z :=
  match s with
  | EmptyString => acc
  | String a rest =>
      let d := nat_of_ascii a in
      if ((48 <=? d) && (d <=? 57))%nat
      then digits rest (acc * 10 + Z.of_nat (d - 48))%Z
      else acc
  end.

Definition sample_atoi (s : string) : Z :=
  match skip_spaces s with
  | String "-" rest => to_int (- digits rest 0)
  | String "+" rest => to_int (digits rest 0)
  | rest => to_int (digits rest 0)
  end.

Definition externals : Externals :=
  {| pTypeLighting1 := 16; sTypeIMPULS := 5; light1_sOn := 1;
     light1_sOff := 0; sizeof_LIGHTING1 := 8;
     atoi := sample_atoi |}.

(** Nothing queued, every stopwatch at zero, a period of 50 milliseconds. *)
Definition quiet : interrupts :=
  mk_interrupts 50 (fun _ => false) [] (fun _ => mk_timeval 0 0)
    (fun _ => mk_timeval 0 0) (fun _ => mk_timeval 0 0) [].

(** Pin 17 fires twice 20 ms apart, the worker acknowledges, pin 17 fires
    again a second later and then pin 18. *)
Definition bounce : list gpio_call :=
  [interrupt 17 (mk_timeval 5 0) (mk_timeval 5 10);
   interrupt 17 (mk_timeval 5 20010) (mk_timeval 5 20020);
   worker_acknowledges;
   interrupt 17 (mk_timeval 6 20020) (mk_timeval 6 20030);
   interrupt 18 (mk_timeval 6 30000) (mk_timeval 6 30010)].

(** The row the device table holds for a pin whose stored state is off. *)
Definition row_off : list (list string) := [["pin"; "0"; ""]].

(** The packet as allocated. *)
Definition raw : lighting1 := mk_lighting1 0 0 0 0 0 0 0 0.

(** The readings of a round that processes two interrupts: the first pin
    has a device row and reads high, the second has no row. *)
Definition readings : list (list (list string) * Z) :=
  [(row_off, 1%Z); ([], 0%Z)].

(** The output of [gpio exports] and of [gpio readall] (old style), cut
    into fields: pin 17 is an exported input, pin 40 is out of range. *)
Definition export_lines : list (list string) :=
  [["GPIO Pins exported"; ""]; ["17"; " in  1  none"]].

Definition readall_lines : list (list string) :=
  [["wiringPi"; "GPIO"; "Phys"; "Name"; "Mode"; "Value"; ""];
   ["0"; "17"; "11"; "GPIO 0"; "IN"; "Low"; ""];
   ["1"; "40"; "12"; "GPIO 1"; "IN"; "Low"; ""];
   ["2"; "21"; "13"; "GPIO 2"; "OUT"; "Low"; ""]].

End GpioSample.

(** * Properties *)

Create HintDb agrees.

Section Properties.

Context {collab : Collaborators}.

(** ** Logs *)

Lemma writes_of_app (l1 l2 : list event) :
  writes_of (l1 ++ l2) = writes_of l1 ++ writes_of l2.
Proof.
  induction l1 as [|e l1 IH]; simpl; [reflexivity|].
  destruct e; simpl; rewrite ?IH; reflexivity.
Qed.

Lemma reads_of_app (l1 l2 : list event) :
  reads_of (l1 ++ l2) = reads_of l1 + reads_of l2.
Proof.
  induction l1 as [|e l1 IH]; simpl; [reflexivity|].
  destruct e; simpl; rewrite ?IH; reflexivity.
Qed.

(** ** What the write path does to the transport *)

Lemma SocketWrite_effect (buf : string) (c : connection) :
  SocketWrite buf c =
  emit (ev_async_write buf)
    (set_in_flight (in_flight c ++ [buf])
       (set_write_buffer buf (set_write_in_progress true c))).
Proof. unfold SocketWrite; simpl. destruct (secure_ c); reflexivity. Qed.

Lemma MyWrite_queues (buf : string) (c : connection) :
  connection_type c <> connection_closing ->
  write_in_progress c = true ->
  MyWrite buf c = set_writeQ (writeQ c ++ [buf]) c.
Proof.
  intros Hmode Hw. unfold MyWrite. rewrite Hw.
  destruct (connection_type c); congruence.
Qed.

Lemma MyWrite_starts (buf : string) (c : connection) :
  connection_type c <> connection_closing ->
  write_in_progress c = false ->
  MyWrite buf c = SocketWrite buf c.
Proof.
  intros Hmode Hw. unfold MyWrite. rewrite Hw.
  destruct (connection_type c); congruence.
Qed.

Lemma MyWrite_closing (buf : string) (c : connection) :
  connection_type c = connection_closing -> MyWrite buf c = c.
Proof. intros Hmode. unfold MyWrite. rewrite Hmode. reflexivity. Qed.

Lemma MyWrite_connection_type (buf : string) (c : connection) :
  connection_type (MyWrite buf c) = connection_type c.
Proof.
  unfold MyWrite.
  destruct (connection_type c) eqn:Hmode; destruct (write_in_progress c);
    rewrite ?SocketWrite_effect; simpl; auto.
Qed.

Lemma MyWrite_keepalive (buf : string) (c : connection) :
  keepalive_ (MyWrite buf c) = keepalive_ c.
Proof.
  unfold MyWrite.
  destruct (connection_type c); destruct (write_in_progress c);
    rewrite ?SocketWrite_effect; reflexivity.
Qed.

Lemma MyWrite_reads (buf : string) (c : connection) :
  reads_of (log (MyWrite buf c)) = reads_of (log c).
Proof.
  unfold MyWrite.
  destruct (connection_type c); destruct (write_in_progress c);
    rewrite ?SocketWrite_effect; simpl; rewrite ?reads_of_app; simpl; lia.
Qed.

Lemma MyWrite_teardown (buf : string) (c : connection) :
  filter is_teardown (log (MyWrite buf c)) = filter is_teardown (log c).
Proof.
  unfold MyWrite.
  destruct (connection_type c); destruct (write_in_progress c);
    rewrite ?SocketWrite_effect; simpl; rewrite ?filter_app; simpl;
    rewrite ?app_nil_r; reflexivity.
Qed.

(** ** The transport and the flag stay in step *)

Lemma agrees_at_most_one (c : connection) :
  transport_agrees c -> (List.length (in_flight c) <= 1)%nat.
Proof.
  unfold transport_agrees. intros ->.
  destruct (write_in_progress c); simpl; lia.
Qed.

Lemma agrees_idle (c : connection) :
  transport_agrees c -> (in_flight c = [] <-> write_in_progress c = false).
Proof.
  unfold transport_agrees. intros ->.
  destruct (write_in_progress c); split; congruence.
Qed.

Lemma agrees_new_connection (secure : bool) (timeout : Z) :
  transport_agrees (new_connection secure timeout).
Proof. reflexivity. Qed.

Lemma agrees_emit (e : event) (c : connection) :
  transport_agrees c -> transport_agrees (emit e c).
Proof. intros H; exact H. Qed.

Lemma agrees_set_keepalive (b : bool) (c : connection) :
  transport_agrees c -> transport_agrees (set_keepalive b c).
Proof. intros H; exact H. Qed.

Lemma agrees_set_connection_type (t : connection_type_t) (c : connection) :
  transport_agrees c -> transport_agrees (set_connection_type t c).
Proof. intros H; exact H. Qed.

Lemma agrees_set_host_endpoint (h : string) (c : connection) :
  transport_agrees c -> transport_agrees (set_host_endpoint h c).
Proof. intros H; exact H. Qed.

Lemma agrees_set_writeQ (q : list string) (c : connection) :
  transport_agrees c -> transport_agrees (set_writeQ q c).
Proof. intros H; exact H. Qed.

Lemma agrees_buf_commit (n : nat) (incoming : string) (c : connection) :
  transport_agrees c -> transport_agrees (buf_commit n incoming c).
Proof. intros H; exact H. Qed.

Lemma agrees_buf_consume (n : nat) (c : connection) :
  transport_agrees c -> transport_agrees (buf_consume n c).
Proof. intros H; exact H. Qed.

Lemma agrees_read_more (c : connection) :
  transport_agrees c -> transport_agrees (read_more c).
Proof. unfold read_more; simpl. destruct (secure_ c); intros H; exact H. Qed.

Lemma agrees_SocketWrite (buf : string) (c : connection) :
  in_flight c = [] -> transport_agrees (SocketWrite buf c).
Proof.
  intros Hidle. rewrite SocketWrite_effect.
  unfold transport_agrees; simpl. rewrite Hidle. reflexivity.
Qed.

Lemma agrees_MyWrite (buf : string) (c : connection) :
  transport_agrees c -> transport_agrees (MyWrite buf c).
Proof.
  intros H. unfold MyWrite.
  destruct (connection_type c); trivial;
    (destruct (write_in_progress c) eqn:Hw;
     [ exact H | apply agrees_SocketWrite; apply agrees_idle; assumption ]).
Qed.

#[local] Hint Resolve agrees_emit agrees_set_keepalive
  agrees_set_connection_type agrees_set_host_endpoint agrees_set_writeQ
  agrees_buf_commit agrees_buf_consume agrees_read_more agrees_MyWrite
  : agrees.

Lemma agrees_stop (c : connection) :
  transport_agrees c -> transport_agrees (stop c).
Proof.
  intros H. unfold stop, SendClose.
  destruct (connection_type c); auto with agrees.
Qed.

Lemma agrees_handle_timeout (error : error_code) (c : connection) :
  transport_agrees c -> transport_agrees (handle_timeout error c).
Proof.
  intros H. unfold handle_timeout, SendPing.
  destruct (ec_differs_from_aborted error); trivial.
  destruct (connection_type c); auto with agrees.
Qed.

Lemma agrees_start (peer : string) (c : connection) :
  transport_agrees c -> transport_agrees (start peer c).
Proof.
  intros H. unfold start.
  destruct (secure_ (set_host_endpoint peer c)); auto with agrees.
Qed.

Lemma agrees_handle_handshake (error : error_code) (c : connection) :
  transport_agrees c -> transport_agrees (handle_handshake error c).
Proof.
  intros H. unfold handle_handshake.
  destruct (secure_ c); trivial.
  destruct (ec_not error); auto with agrees.
Qed.

Lemma agrees_handle_read (error : error_code) (n : nat) (incoming : string)
    (c : connection) :
  transport_agrees c -> transport_agrees (handle_read error n incoming c).
Proof.
  intros H. unfold handle_read.
  destruct (ec_not error && (0 <? n)%nat).
  - destruct (connection_type (buf_commit n incoming (emit ev_timer_cancel c))).
    + destruct (request_parser_parse _) as [r q k | q].
      * destruct r; simpl tribool_is_true; simpl tribool_is_false; cbv iota.
        -- destruct (status _ =? switching_protocols)%Z;
             match goal with
             | |- transport_agrees (if ?b then _ else _) => destruct b
             end; auto 20 with agrees.
        -- match goal with
           | |- transport_agrees (if ?b then _ else _) => destruct b
           end; auto 20 with agrees.
        -- auto 20 with agrees.
      * simpl tribool_is_true; simpl tribool_is_false; cbv iota.
        match goal with
        | |- transport_agrees (if ?b then _ else _) => destruct b
        end; auto 20 with agrees.
    + destruct (websocket_parse _ _) as [[r k] ka].
      destruct r; simpl tribool_is_true; simpl tribool_is_false; cbv iota;
        try match goal with
            | |- transport_agrees (if ?b then _ else _) => destruct b
            end; auto 20 with agrees.
    + destruct (websocket_parse _ _) as [[r k] ka].
      destruct r; simpl tribool_is_true; simpl tribool_is_false; cbv iota;
        try match goal with
            | |- transport_agrees (if ?b then _ else _) => destruct b
            end; auto 20 with agrees.
  - destruct (ec_differs_from_aborted error); auto with agrees.
Qed.

Lemma agrees_complete_write (error : error_code) (c c' : connection) :
  transport_agrees c -> complete_write error c = Some c' ->
  transport_agrees c'.
Proof.
  intros H. unfold complete_write.
  destruct (in_flight c) as [|done rest] eqn:Hfl; [discriminate|].
  intros [= <-].
  assert (Hrest : rest = []).
  { unfold transport_agrees in H. rewrite Hfl in H.
    destruct (write_in_progress c); [congruence | discriminate]. }
  subst rest. unfold handle_write.
  destruct (ec_not error); [|reflexivity].
  cbn [writeQ set_write_in_progress set_in_flight].
  destruct (writeQ c) as [|front rest].
  - destruct (negb _); reflexivity.
  - apply agrees_set_writeQ, agrees_SocketWrite. reflexivity.
Qed.

Lemma agrees_perform (k : call) (c c' : connection) :
  transport_agrees c -> perform k c = Some c' -> transport_agrees c'.
Proof.
  intros H. destruct k; simpl; try (intros [= <-]).
  - now apply agrees_start.
  - now apply agrees_handle_handshake.
  - now apply agrees_handle_read.
  - now apply agrees_handle_timeout.
  - now apply agrees_MyWrite.
  - now apply agrees_complete_write.
  - now apply agrees_stop.
Qed.

Lemma agrees_run (calls : list call) (c c' : connection) :
  transport_agrees c -> run calls c = Some c' -> transport_agrees c'.
Proof.
  revert c. induction calls as [|k calls IH]; intros c H; simpl.
  - now intros [= <-].
  - destruct (perform k c) as [c1|] eqn:Hk; [|discriminate].
    apply IH. eapply agrees_perform; eassumption.
Qed.

(** ** Order of the writes *)

(** One write request or successful completion, on a connection that is not
    closing: the mode stays, the queue stays empty while idle, and the
    buffers on the wire followed by those queued grow by the request. *)
Lemma fifo_perform (k : call) (c c' : connection) :
  is_clean_write_call k = true ->
  connection_type c <> connection_closing ->
  transport_agrees c -> idle_queue_empty c ->
  perform k c = Some c' ->
  connection_type c' = connection_type c /\
  idle_queue_empty c' /\
  wire c' ++ writeQ c' = (wire c ++ writeQ c) ++ requested [k].
Proof.
  intros Hk Hmode Hag Hidle.
  destruct k; try discriminate; simpl.
  - intros [= <-]. split; [apply MyWrite_connection_type|].
    destruct (write_in_progress c) eqn:Hw.
    + rewrite (MyWrite_queues buf c Hmode Hw). split.
      * intros Hf. simpl in Hf. congruence.
      * unfold wire; simpl. now rewrite app_assoc.
    + rewrite (MyWrite_starts buf c Hmode Hw), SocketWrite_effect. split.
      * intros Hf. discriminate.
      * unfold wire; simpl. rewrite (Hidle Hw), writes_of_app; simpl.
        now rewrite !app_nil_r.
  - unfold complete_write.
    destruct (in_flight c) as [|done rest]; [discriminate|].
    intros [= <-]. unfold handle_write. simpl in Hk. rewrite Hk.
    cbn [writeQ set_write_in_progress set_in_flight].
    destruct (writeQ c) as [|front q] eqn:Hq.
    + destruct (negb _); (split; [reflexivity|]); (split; [intros _; exact Hq|]);
        unfold wire; simpl; rewrite Hq, ?writes_of_app; simpl;
        now rewrite ?app_nil_r.
    + rewrite SocketWrite_effect. split; [reflexivity|]. split.
      * intros Hf. discriminate.
      * unfold wire; simpl. rewrite writes_of_app; simpl.
        now rewrite app_nil_r, <- app_assoc.
Qed.

Lemma requested_cons (k : call) (calls : list call) :
  requested (k :: calls) = requested [k] ++ requested calls.
Proof. destruct k; reflexivity. Qed.

Lemma fifo_run (calls : list call) (c c' : connection) :
  forallb is_clean_write_call calls = true ->
  connection_type c <> connection_closing ->
  transport_agrees c -> idle_queue_empty c ->
  run calls c = Some c' ->
  wire c' ++ writeQ c' = (wire c ++ writeQ c) ++ requested calls.
Proof.
  revert c. induction calls as [|k calls IH]; intros c Hall Hmode Hag Hidle.
  - simpl. intros [= <-]. now rewrite app_nil_r.
  - simpl in Hall. apply andb_true_iff in Hall as [Hk Hall].
    simpl run. destruct (perform k c) as [c1|] eqn:Hperf; [|discriminate].
    intros Hrun.
    destruct (fifo_perform k c c1 Hk Hmode Hag Hidle Hperf)
      as (Hm1 & Hidle1 & Hstep).
    rewrite (IH c1 Hall) ; try assumption.
    + rewrite Hstep, (requested_cons k calls), <- !app_assoc. reflexivity.
    + now rewrite Hm1.
    + eapply agrees_perform; eassumption.
Qed.

(** C1 (as amended): along every sequence of calls made on a connection at
    most one write is with the transport; on a connection that is not closing,
    [MyWrite] appends the buffer to the queue and starts no transport write
    while a write is in flight, and starts the write at once while none is;
    and when the connection is not closing and holds no queued buffer while
    no write is in progress, and the sequence holds only write requests and
    successful write completions, the buffers reach the transport in the
    order requested: the buffers on the wire, followed by those still queued,
    are the earlier ones followed by the requested ones in call order. *)
Theorem write_queue_serialises_writes :
  forall (calls : list call) (c c' : connection),
    transport_agrees c ->
    run calls c = Some c' ->
    (List.length (in_flight c') <= 1)%nat /\
    (forall buf, connection_type c' <> connection_closing ->
       in_flight c' <> [] ->
       writeQ (MyWrite buf c') = writeQ c' ++ [buf] /\
       in_flight (MyWrite buf c') = in_flight c' /\
       log (MyWrite buf c') = log c') /\
    (forall buf, connection_type c' <> connection_closing ->
       in_flight c' = [] ->
       in_flight (MyWrite buf c') = [buf] /\
       log (MyWrite buf c') = log c' ++ [ev_async_write buf] /\
       writeQ (MyWrite buf c') = writeQ c') /\
    (connection_type c <> connection_closing ->
     idle_queue_empty c ->
     forallb is_clean_write_call calls = true ->
     wire c' ++ writeQ c' = (wire c ++ writeQ c) ++ requested calls).
Proof.
  intros calls c c' Hag Hrun.
  pose proof (agrees_run calls c c' Hag Hrun) as Hag'.
  split; [now apply agrees_at_most_one|].
  split; [|split].
  - intros buf Hmode Hbusy.
    assert (Hw : write_in_progress c' = true).
    { destruct (write_in_progress c') eqn:Hw; trivial.
      exfalso. apply Hbusy. now apply agrees_idle. }
    rewrite (MyWrite_queues buf c' Hmode Hw). repeat split.
  - intros buf Hmode Hidle.
    assert (Hw : write_in_progress c' = false) by now apply agrees_idle.
    rewrite (MyWrite_starts buf c' Hmode Hw), SocketWrite_effect. simpl.
    rewrite Hidle. repeat split.
  - intros Hmode Hidle Hall. now apply fifo_run.
Qed.

(** C9: on a closing connection [MyWrite] changes nothing: the buffer is
    dropped, and the queue, the flag, the transport and the log stay as they
    were, for one call and for any number of calls in a row. *)
Theorem MyWrite_is_noop_when_closing :
  forall (c : connection),
    connection_type c = connection_closing ->
    (forall buf, MyWrite buf c = c) /\
    (forall bufs, fold_left (fun c' buf => MyWrite buf c') bufs c = c).
Proof.
  intros c Hmode. split.
  - intros buf. now apply MyWrite_closing.
  - intros bufs. induction bufs as [|buf bufs IH]; simpl; trivial.
    now rewrite MyWrite_closing.
Qed.

(** C3 (the code as it stands): a write completion that reports a failure
    only clears [write_in_progress]; the mode, the queue and the log are left
    as they were, so nothing stops the connection and no queued buffer is
    started. *)
Theorem failed_write_only_clears_flag :
  forall (error : error_code) (n : nat) (c : connection),
    error <> success ->
    handle_write error n c = set_write_in_progress false c.
Proof.
  intros error n c Herr. unfold handle_write.
  replace (ec_not error) with false; [reflexivity|].
  symmetry. now apply Z.eqb_neq.
Qed.

(** C10 (as amended): a read completion that reports success with no bytes
    cancels the liveness timer and then asks the connection manager to stop
    the connection; no member changes and no read is issued. *)
Theorem empty_read_stops_connection :
  forall (incoming : string) (c : connection),
    handle_read success 0 incoming c =
    emit ev_manager_stop (emit ev_timer_cancel c).
Proof. reflexivity. Qed.

(** ** Strings *)

Lemma substring_whole (s : string) : substring 0 (String.length s) s = s.
Proof. induction s as [|a s IH]; simpl; congruence. Qed.

Lemma substr_from_append (p r : string) :
  substr_from (String.length p) (p ++ r)%string = r.
Proof.
  unfold substr_from. induction p as [|a p IH]; simpl.
  - rewrite Nat.sub_0_r. apply substring_whole.
  - exact IH.
Qed.

Lemma substr_prefix_append (p r : string) :
  substr 0 (String.length p) (p ++ r)%string = p.
Proof.
  unfold substr. induction p as [|a p IH]; simpl.
  - destruct r; reflexivity.
  - now rewrite IH.
Qed.

Lemma strip_prefix_some (p s r : string) :
  strip_prefix p s = Some r -> s = (p ++ r)%string.
Proof.
  revert s. induction p as [|a p IH]; intros s; simpl.
  - now intros [= ->].
  - destruct s as [|b s]; [discriminate|].
    destruct (Ascii.eqb a b) eqn:Hab; [|discriminate].
    apply Ascii.eqb_eq in Hab. subst b.
    intros H. now rewrite (IH s H).
Qed.

Lemma strip_prefix_append (p r : string) :
  strip_prefix p (p ++ r)%string = Some r.
Proof.
  induction p as [|a p IH]; simpl; trivial.
  now rewrite Ascii.eqb_refl.
Qed.

Lemma strip_prefix_none (p s : string) :
  strip_prefix p s = None -> substr 0 (String.length p) s <> p.
Proof.
  unfold substr. revert s. induction p as [|a p IH]; intros s; simpl.
  - discriminate.
  - destruct s as [|b s]; [discriminate|].
    destruct (Ascii.eqb a b) eqn:Hab.
    + intros H [= Hb Hs]. now apply (IH s H).
    + intros _ [= Hb Hs]. subst b. now rewrite Ascii.eqb_refl in Hab.
Qed.

(** Lines 250-253 of [handle_read] compute the normalised peer address. *)
Lemma request_host_normalised (h : string) :
  request_host h = normalised_peer h.
Proof.
  unfold request_host, normalised_peer.
  destruct (strip_prefix "::ffff:" h) as [r|] eqn:Hs.
  - apply strip_prefix_some in Hs. subst h.
    pose proof (substr_prefix_append "::ffff:" r) as Hp.
    change (String.length "::ffff:") with 7 in Hp.
    rewrite Hp, String.eqb_refl.
    exact (substr_from_append "::ffff:" r).
  - apply strip_prefix_none in Hs.
    apply String.eqb_neq in Hs.
    change (String.length "::ffff:") with 7 in Hs. now rewrite Hs.
Qed.

Lemma normalised_peer_mapped (rest : string) :
  normalised_peer ("::ffff:" ++ rest)%string = rest.
Proof.
  unfold normalised_peer. now rewrite (strip_prefix_append "::ffff:" rest).
Qed.

Lemma normalised_peer_other (peer : string) :
  (forall rest, peer <> ("::ffff:" ++ rest)%string) ->
  normalised_peer peer = peer.
Proof.
  intros Hno. unfold normalised_peer.
  destruct (strip_prefix "::ffff:" peer) as [r|] eqn:Hs; trivial.
  apply strip_prefix_some in Hs. now apply Hno in Hs.
Qed.

Lemma iequals_upper (s t : string) :
  iequals s t = String.eqb (upper s) (upper t).
Proof.
  revert t. induction s as [|a s IH]; intros [|b t]; simpl; trivial.
  now rewrite IH.
Qed.

Lemma iequals_keep_alive (v : string) :
  iequals v "Keep-Alive" = iequals v "keep-alive".
Proof. now rewrite !iequals_upper. Qed.

Lemma dispatched_keep_alive (req : request) (c : connection) :
  keep_alive (dispatched req c) = asks_keep_alive req.
Proof.
  unfold dispatched, asks_keep_alive; simpl.
  destruct (get_req_header req "Connection"); trivial.
  apply iequals_keep_alive.
Qed.

Lemma requests_of_app (l1 l2 : list event) :
  requests_of (l1 ++ l2) = requests_of l1 ++ requests_of l2.
Proof.
  induction l1 as [|e l1 IH]; simpl; [reflexivity|].
  destruct e; simpl; rewrite ?IH; reflexivity.
Qed.

Lemma MyWrite_requests (buf : string) (c : connection) :
  requests_of (log (MyWrite buf c)) = requests_of (log c).
Proof.
  unfold MyWrite.
  destruct (connection_type c); destruct (write_in_progress c);
    rewrite ?SocketWrite_effect; simpl; rewrite ?requests_of_app; simpl;
    rewrite ?app_nil_r; reflexivity.
Qed.

Lemma MyWrite_busy (buf : string) (c : connection) :
  connection_type c <> connection_closing ->
  write_in_progress (MyWrite buf c) = true.
Proof.
  intros Hmode. destruct (write_in_progress c) eqn:Hw.
  - now rewrite (MyWrite_queues buf c Hmode Hw).
  - now rewrite (MyWrite_starts buf c Hmode Hw), SocketWrite_effect.
Qed.

Lemma read_more_effect (c : connection) :
  read_more c =
  emit ev_async_read_some (emit (ev_timer_expires_from_now (timeout_ c)) c).
Proof. unfold read_more; simpl. destruct (secure_ c); reflexivity. Qed.

(** ** [handle_read] on a complete and on a rejected HTTP request *)

Lemma handle_read_complete (n : nat) (incoming : string) (c : connection)
    (req : request) (k : nat) :
  (0 < n)%nat ->
  connection_type c = connection_http ->
  request_parser_parse (buf_ c ++ substr 0 n incoming)%string
    = parse_returns tb_true req k ->
  handle_read success n incoming c =
    let r := dispatched req c in
    let rep := handle_request r in
    let c1 :=
      MyWrite (reply_to_string rep (method req))
        (emit (ev_handle_request r)
           (set_keepalive (keep_alive r)
              (buf_consume k
                 (buf_commit n incoming (emit ev_timer_cancel c))))) in
    let c2 :=
      if (status rep =? switching_protocols)%Z
      then emit (ev_store_session_id r rep)
             (set_keepalive true
                (set_connection_type connection_websocket c1))
      else c1 in
    if keepalive_ c2 then read_more c2 else c2.
Proof.
  intros Hn Hmode Hparse. unfold handle_read.
  replace (0 <? n)%nat with true by (symmetry; apply Nat.ltb_lt; exact Hn).
  change (ec_not success && true) with true. cbv iota.
  change (connection_type (buf_commit n incoming (emit ev_timer_cancel c)))
    with (connection_type c).
  rewrite Hmode.
  change (buf_ (buf_commit n incoming (emit ev_timer_cancel c)))
    with (buf_ c ++ substr 0 n incoming)%string.
  rewrite Hparse. reflexivity.
Qed.

Lemma handle_read_rejected (n : nat) (incoming : string) (c : connection)
    (req : request) :
  (0 < n)%nat ->
  connection_type c = connection_http ->
  rejected (request_parser_parse (buf_ c ++ substr 0 n incoming)%string)
    = Some req ->
  exists c0,
    handle_read success n incoming c =
      MyWrite (reply_to_string (stock_reply bad_request) (method req)) c0 /\
    log c0 = log c ++
      read_prologue (request_parser_parse (buf_ c ++ substr 0 n incoming)%string) /\
    connection_type c0 = connection_http /\
    keepalive_ c0 = false /\
    write_in_progress c0 = write_in_progress c /\
    in_flight c0 = in_flight c /\
    writeQ c0 = writeQ c.
Proof.
  intros Hn Hmode Hrej. unfold handle_read.
  replace (0 <? n)%nat with true by (symmetry; apply Nat.ltb_lt; exact Hn).
  change (ec_not success && true) with true. cbv iota.
  change (connection_type (buf_commit n incoming (emit ev_timer_cancel c)))
    with (connection_type c).
  rewrite Hmode.
  change (buf_ (buf_commit n incoming (emit ev_timer_cancel c)))
    with (buf_ c ++ substr 0 n incoming)%string.
  destruct (request_parser_parse (buf_ c ++ substr 0 n incoming)%string)
    as [res q k | q]; simpl in Hrej.
  - destruct res; try discriminate. injection Hrej as ->.
    cbn [tribool_is_true tribool_is_false]. cbv iota.
    rewrite MyWrite_keepalive. cbn [keepalive_ set_keepalive].
    eexists. split; [reflexivity|]. simpl. rewrite Hmode. repeat split.
  - injection Hrej as ->.
    cbn [tribool_is_true tribool_is_false]. cbv iota.
    rewrite MyWrite_keepalive. cbn [keepalive_ set_keepalive].
    eexists. split; [reflexivity|]. simpl. rewrite Hmode.
    rewrite <- app_assoc. repeat split.
Qed.

(** ** Draining the queue *)

Lemma run_app (calls1 calls2 : list call) (c : connection) :
  run (calls1 ++ calls2) c =
  match run calls1 c with
  | Some c1 => run calls2 c1
  | None => None
  end.
Proof.
  revert c. induction calls1 as [|k calls1 IH]; intros c; simpl; trivial.
  destruct (perform k c); auto.
Qed.

Lemma agrees_busy (c : connection) :
  transport_agrees c -> write_in_progress c = true ->
  in_flight c = [write_buffer c].
Proof. unfold transport_agrees. now intros -> ->. Qed.

(** While buffers wait, each successful completion starts the next one. *)
Lemma drain_queue (j : nat) :
  forall (q : list string) (c : connection),
    transport_agrees c -> write_in_progress c = true -> writeQ c = q ->
    (j <= List.length q)%nat ->
    exists cj,
      run (completions j) c = Some cj /\
      log cj = log c ++ map ev_async_write (firstn j q) /\
      writeQ cj = skipn j q /\
      write_in_progress cj = true /\
      transport_agrees cj /\
      keepalive_ cj = keepalive_ c.
Proof.
  induction j as [|j IH]; intros q c Hag Hw Hq Hj.
  - exists c. simpl. rewrite app_nil_r. repeat split; trivial.
  - destruct q as [|x q]; [simpl in Hj; lia|]. simpl in Hj.
    unfold completions; simpl. unfold complete_write.
    rewrite (agrees_busy c Hag Hw). unfold handle_write.
    change (ec_not success) with true. cbv iota.
    cbn [writeQ set_write_in_progress set_in_flight]. rewrite Hq.
    rewrite SocketWrite_effect.
    match goal with
    | |- exists cj, run _ ?c1 = _ /\ _ =>
        destruct (IH q c1) as (cj & Hrun & Hlog & Hrest & Hwj & Hagj & Hka);
          [reflexivity | reflexivity | reflexivity | lia |]
    end.
    exists cj. split; [exact Hrun|].
    split; [rewrite Hlog; simpl; now rewrite <- app_assoc|].
    repeat split; trivial.
Qed.

(** With nothing left to write and no keep-alive, the completion shuts the
    transport down and asks the manager to stop the connection. *)
Lemma last_completion_closes (c : connection) :
  transport_agrees c -> write_in_progress c = true -> writeQ c = [] ->
  keepalive_ c = false ->
  exists c',
    complete_write success c = Some c' /\
    log c' = log c ++ [ev_socket_shutdown; ev_manager_stop].
Proof.
  intros Hag Hw Hq Hka. unfold complete_write.
  rewrite (agrees_busy c Hag Hw). unfold handle_write.
  change (ec_not success) with true. cbv iota.
  cbn [writeQ keepalive_ set_write_in_progress set_in_flight].
  rewrite Hq, Hka. simpl. eexists. split; [reflexivity|].
  simpl. now rewrite <- app_assoc.
Qed.

Lemma handle_write_reads (error : error_code) (n : nat) (c : connection) :
  reads_of (log (handle_write error n c)) = reads_of (log c).
Proof.
  unfold handle_write. destruct (ec_not error); [|reflexivity].
  cbn [writeQ keepalive_ set_write_in_progress].
  destruct (writeQ c) as [|front rest].
  - destruct (negb (keepalive_ c)); simpl; rewrite ?reads_of_app; simpl; lia.
  - rewrite SocketWrite_effect. simpl. rewrite reads_of_app. simpl. lia.
Qed.

Lemma MyWrite_pending_length (buf : string) (c : connection) :
  connection_type c <> connection_closing ->
  List.length (pending (MyWrite buf c)) = S (List.length (pending c)).
Proof.
  intros Hmode. unfold pending. destruct (write_in_progress c) eqn:Hw.
  - rewrite (MyWrite_queues buf c Hmode Hw). simpl.
    rewrite !length_app. simpl. lia.
  - rewrite (MyWrite_starts buf c Hmode Hw), SocketWrite_effect. simpl.
    rewrite !length_app. simpl. lia.
Qed.

Lemma handle_timeout_expired (error : error_code) (c : connection) :
  error <> operation_aborted ->
  handle_timeout error c =
  match connection_type c with
  | connection_http => emit ev_manager_stop c
  | connection_websocket => MyWrite build_liveness_probe c
  | connection_closing => c
  end.
Proof.
  intros Herr. unfold handle_timeout, SendPing, ec_differs_from_aborted.
  apply Z.eqb_neq in Herr. now rewrite Herr.
Qed.

(** C2 (as amended): when the liveness timer expires without having been
    cancelled, an HTTP connection asks the connection manager to stop it; a
    connection in the framed push mode hands one liveness probe to [MyWrite]
    at every such expiry, however many follow one another, and none of them
    stops it or changes its mode; a closing connection does nothing. *)
Theorem timeout_acts_by_mode :
  forall (error : error_code) (c : connection),
    error <> operation_aborted ->
    (connection_type c = connection_http ->
       handle_timeout error c = emit ev_manager_stop c) /\
    (connection_type c = connection_websocket ->
       forall n : nat,
         Nat.iter n (handle_timeout error) c
           = Nat.iter n (MyWrite build_liveness_probe) c /\
         connection_type (Nat.iter n (handle_timeout error) c)
           = connection_websocket /\
         filter is_teardown (log (Nat.iter n (handle_timeout error) c))
           = filter is_teardown (log c) /\
         List.length (pending (Nat.iter n (handle_timeout error) c))
           = List.length (pending c) + n) /\
    (connection_type c = connection_closing ->
       handle_timeout error c = c).
Proof.
  intros error c Herr. split; [|split]; intros Hmode.
  - now rewrite (handle_timeout_expired error c Herr), Hmode.
  - induction n as [|n (IHeq & IHmode & IHlog & IHlen)]; simpl.
    + repeat split; trivial.
    + rewrite (handle_timeout_expired error _ Herr), IHmode.
      rewrite <- IHeq.
      rewrite MyWrite_connection_type, MyWrite_teardown.
      rewrite MyWrite_pending_length by (rewrite IHmode; discriminate).
      repeat split; trivial. lia.
  - now rewrite (handle_timeout_expired error c Herr), Hmode.
Qed.

(** C7 (as amended): stopping a connection in the framed push mode hands a
    close frame to [MyWrite] and closes the transport in the same call,
    whether or not a write is in flight: with a write in flight the frame is
    left in the queue behind it when the transport closes, with none the
    frame's write is started just before the close; the mode stays as it
    was. *)
Theorem stop_closes_at_once :
  forall (c : connection),
    connection_type c = connection_websocket ->
    stop c = emit ev_socket_close (MyWrite (build_close_frame "") c) /\
    connection_type (stop c) = connection_websocket /\
    (write_in_progress c = true ->
       log (stop c) = log c ++ [ev_socket_close] /\
       writeQ (stop c) = writeQ c ++ [build_close_frame ""] /\
       in_flight (stop c) = in_flight c) /\
    (write_in_progress c = false ->
       log (stop c)
         = log c ++ [ev_async_write (build_close_frame ""); ev_socket_close] /\
       in_flight (stop c) = in_flight c ++ [build_close_frame ""] /\
       writeQ (stop c) = writeQ c).
Proof.
  intros c Hmode.
  assert (Hopen : connection_type c <> connection_closing)
    by (rewrite Hmode; discriminate).
  assert (Hstop : stop c = emit ev_socket_close (MyWrite (build_close_frame "") c)).
  { unfold stop, SendClose. now rewrite Hmode. }
  rewrite Hstop. split; [reflexivity|]. split; [|split]; simpl.
  - now rewrite MyWrite_connection_type.
  - intros Hw. rewrite (MyWrite_queues _ c Hopen Hw). repeat split.
  - intros Hw. rewrite (MyWrite_starts _ c Hopen Hw), SocketWrite_effect.
    simpl. rewrite <- app_assoc. repeat split.
Qed.

(** C4: a complete HTTP request whose response has status 101 leaves the
    connection in the framed push mode with the keep-alive flag set,
    whatever the request's headers say. *)
Theorem upgrade_switches_to_websocket :
  forall (n : nat) (incoming : string) (c : connection) (req : request)
         (k : nat),
    (0 < n)%nat ->
    connection_type c = connection_http ->
    request_parser_parse (buf_ c ++ substr 0 n incoming)%string
      = parse_returns tb_true req k ->
    status (handle_request (dispatched req c)) = switching_protocols ->
    connection_type (handle_read success n incoming c) = connection_websocket /\
    keepalive_ (handle_read success n incoming c) = true.
Proof.
  intros n incoming c req k Hn Hmode Hparse Hstatus.
  rewrite (handle_read_complete n incoming c req k Hn Hmode Hparse).
  cbv zeta. rewrite Hstatus, Z.eqb_refl.
  cbn [keepalive_ emit set_keepalive]. cbv iota.
  rewrite read_more_effect. split; reflexivity.
Qed.

(** C8: the request handed to the handler for a complete HTTP request carries
    as host the peer address with a leading ["::ffff:"] cut off, and the peer
    address itself when it does not start that way. *)
Theorem dispatched_host_is_normalised_peer :
  forall (n : nat) (incoming : string) (c : connection) (req : request)
         (k : nat),
    (0 < n)%nat ->
    connection_type c = connection_http ->
    request_parser_parse (buf_ c ++ substr 0 n incoming)%string
      = parse_returns tb_true req k ->
    exists r,
      requests_of (log (handle_read success n incoming c))
        = requests_of (log c) ++ [r] /\
      host r = normalised_peer (host_endpoint_ c) /\
      (forall rest, host_endpoint_ c = ("::ffff:" ++ rest)%string ->
         host r = rest) /\
      ((forall rest, host_endpoint_ c <> ("::ffff:" ++ rest)%string) ->
         host r = host_endpoint_ c).
Proof.
  intros n incoming c req k Hn Hmode Hparse.
  exists (dispatched req c). split; [|split; [|split]].
  - rewrite (handle_read_complete n incoming c req k Hn Hmode Hparse).
    cbv zeta.
    destruct (status _ =? switching_protocols)%Z;
      match goal with
      | |- context [if ?b then _ else _] => destruct b
      end;
      rewrite ?read_more_effect; simpl;
      rewrite ?requests_of_app, ?MyWrite_requests; simpl;
      rewrite ?requests_of_app; simpl; now rewrite ?app_nil_r.
  - apply request_host_normalised.
  - intros rest Hpeer. simpl. rewrite request_host_normalised, Hpeer.
    apply normalised_peer_mapped.
  - intros Hno. simpl. rewrite request_host_normalised.
    now apply normalised_peer_other.
Qed.

(** C5 (as amended): after a complete HTTP request the request's own flag is
    set exactly when it asks for keep-alive, and the connection's keep-alive
    flag is set exactly when the request asks for it or the response has
    status 101.  With a response other than 101, a request that asks for
    keep-alive makes [handle_read] issue one further read, in the same call
    and right after the response went to [MyWrite], while a write is still in
    progress; a request that does not ask makes it issue none.  A write
    completion never issues a read. *)
Theorem keep_alive_after_complete_request :
  forall (n : nat) (incoming : string) (c : connection) (req : request)
         (k : nat),
    (0 < n)%nat ->
    connection_type c = connection_http ->
    request_parser_parse (buf_ c ++ substr 0 n incoming)%string
      = parse_returns tb_true req k ->
    keep_alive (dispatched req c) = asks_keep_alive req /\
    keepalive_ (handle_read success n incoming c)
      = asks_keep_alive req
        || (status (handle_request (dispatched req c))
              =? switching_protocols)%Z /\
    ((status (handle_request (dispatched req c)) =? switching_protocols)%Z
       = false ->
     reads_of (log (handle_read success n incoming c))
       = reads_of (log c) + (if asks_keep_alive req then 1 else 0) /\
     (asks_keep_alive req = true ->
      write_in_progress (handle_read success n incoming c) = true /\
      exists c0,
        log c0 = log c ++ [ev_timer_cancel; ev_handle_request (dispatched req c)] /\
        handle_read success n incoming c =
          read_more
            (MyWrite
               (reply_to_string (handle_request (dispatched req c))
                  (method req)) c0))) /\
    (forall error m x,
       reads_of (log (handle_write error m x)) = reads_of (log x)).
Proof.
  intros n incoming c req k Hn Hmode Hparse.
  pose proof (dispatched_keep_alive req c) as Hflag.
  rewrite (handle_read_complete n incoming c req k Hn Hmode Hparse).
  cbv zeta.
  split; [exact Hflag|].
  split; [|split; [|exact handle_write_reads]].
  - destruct (status _ =? switching_protocols)%Z.
    + cbn [keepalive_ emit set_keepalive]. cbv iota.
      rewrite read_more_effect. now rewrite orb_true_r.
    + rewrite MyWrite_keepalive. cbn [keepalive_ emit set_keepalive].
      rewrite Hflag, orb_false_r.
      destruct (asks_keep_alive req).
      * rewrite read_more_effect. cbn [keepalive_ emit].
        now rewrite MyWrite_keepalive.
      * now rewrite MyWrite_keepalive.
  - intros ->. rewrite MyWrite_keepalive. cbn [keepalive_ emit set_keepalive].
    rewrite Hflag. destruct (asks_keep_alive req) eqn:Hasks.
    + split.
      * rewrite read_more_effect. simpl.
        rewrite !reads_of_app, MyWrite_reads. simpl.
        rewrite !reads_of_app. simpl. lia.
      * intros _. split.
        -- rewrite read_more_effect. simpl. apply MyWrite_busy.
           simpl. rewrite Hmode. discriminate.
        -- eexists. split; [|reflexivity]. simpl.
           now rewrite <- app_assoc.
    + split; [|discriminate].
      rewrite MyWrite_reads. simpl. rewrite !reads_of_app. simpl. lia.
Qed.

(** C6: a read whose accumulated buffer the HTTP parser rejects (it returns
    false or throws) hands exactly one bad-request response to the write
    queue, clears the keep-alive flag and issues no read; the successful write
    completions that follow start the queued buffers one by one without
    closing anything, and the completion of the last one, the bad-request
    response, shuts the transport down and asks the manager to stop the
    connection. *)
Theorem malformed_request_is_answered_then_closed :
  forall (n : nat) (incoming : string) (c : connection) (req : request),
    (0 < n)%nat ->
    connection_type c = connection_http ->
    transport_agrees c ->
    rejected (request_parser_parse (buf_ c ++ substr 0 n incoming)%string)
      = Some req ->
    let bad := reply_to_string (stock_reply bad_request) (method req) in
    let c1 := handle_read success n incoming c in
    (if write_in_progress c
     then in_flight c1 = in_flight c /\ writeQ c1 = writeQ c ++ [bad]
     else in_flight c1 = [bad] /\ writeQ c1 = writeQ c) /\
    keepalive_ c1 = false /\
    reads_of (log c1) = reads_of (log c) /\
    (forall j, (j < List.length (pending c1))%nat ->
       exists cj,
         run (completions j) c1 = Some cj /\
         log cj = log c1 ++ map ev_async_write (firstn j (writeQ c1))) /\
    (exists c2,
       run (completions (List.length (pending c1))) c1 = Some c2 /\
       log c2 = log c1 ++ map ev_async_write (writeQ c1)
                  ++ [ev_socket_shutdown; ev_manager_stop]).
Proof.
  intros n incoming c req Hn Hmode Hag Hrej bad c1.
  pose proof (agrees_handle_read success n incoming c Hag) as Hag1.
  fold c1 in Hag1.
  destruct (handle_read_rejected n incoming c req Hn Hmode Hrej)
    as (c0 & Heq & Hlog0 & Hmode0 & Hka0 & Hw0 & Hfl0 & Hq0).
  fold bad in Heq. fold c1 in Heq.
  assert (Hopen : connection_type c0 <> connection_closing)
    by (rewrite Hmode0; discriminate).
  assert (Hbusy : write_in_progress c1 = true)
    by (rewrite Heq; now apply MyWrite_busy).
  assert (Hka1 : keepalive_ c1 = false)
    by (rewrite Heq, MyWrite_keepalive; exact Hka0).
  assert (Hlen : List.length (pending c1) = S (List.length (writeQ c1))).
  { unfold pending. rewrite (agrees_busy c1 Hag1 Hbusy), length_app.
    reflexivity. }
  split; [|split; [exact Hka1|split; [|split]]].
  - destruct (write_in_progress c) eqn:Hw.
    + rewrite Heq, (MyWrite_queues bad c0 Hopen) by congruence.
      simpl. now rewrite Hfl0, Hq0.
    + rewrite Heq, (MyWrite_starts bad c0 Hopen) by congruence.
      rewrite SocketWrite_effect. simpl. rewrite Hfl0, Hq0.
      assert (Hidle : in_flight c = []) by now apply agrees_idle.
      now rewrite Hidle.
  - rewrite Heq, MyWrite_reads, Hlog0, reads_of_app.
    destruct (request_parser_parse _); simpl; lia.
  - intros j Hj.
    destruct (drain_queue j (writeQ c1) c1 Hag1 Hbusy eq_refl)
      as (cj & Hrun & Hlogj & _); [lia|].
    exists cj. split; assumption.
  - destruct (drain_queue (List.length (writeQ c1)) (writeQ c1) c1 Hag1 Hbusy
                eq_refl)
      as (cj & Hrun & Hlogj & Hqj & Hwj & Hagj & Hkaj); [lia|].
    rewrite firstn_all in Hlogj. rewrite skipn_all in Hqj.
    destruct (last_completion_closes cj Hagj Hwj Hqj) as (c2 & Hdone & Hlog2);
      [congruence|].
    exists c2. split.
    + rewrite Hlen. unfold completions. cbn [repeat].
      rewrite repeat_cons, run_app.
      fold (completions (List.length (writeQ c1))). rewrite Hrun.
      simpl. now rewrite Hdone.
    + now rewrite Hlog2, Hlogj, <- app_assoc.
Qed.

End Properties.

(** * Concrete runs *)

(** The sample states are reached from a new connection by calls its
    environment makes. *)
Lemma sample_states_reached :
  run (collab := Sample.collaborators) [call_start "10.0.0.5"]
    (new_connection false 20) = Some Sample.client /\
  run (collab := Sample.collaborators) [call_read_done success 7 "GET /ws"]
    Sample.client = Some Sample.upgraded /\
  run (collab := Sample.collaborators) [call_write_done success]
    Sample.upgraded = Some Sample.settled /\
  run (collab := Sample.collaborators) [call_read_done success 5 "CLOSE"]
    Sample.settled = Some Sample.closing /\
  run (collab := Sample.collaborators)
    [call_start "::ffff:10.0.0.5"; call_read_done success 7 "GET /ka"]
    (new_connection false 20) = Some Sample.answering.
Proof. repeat split; vm_compute; reflexivity. Qed.

(** C1, at a burst of writes on a fresh connection. *)
Lemma write_queue_serialises_writes_witness :
  transport_agrees Sample.client /\
  exists c',
    run (collab := Sample.collaborators) (Sample.burst success) Sample.client
      = Some c' /\
    (List.length (in_flight c') <= 1)%nat /\
    wire c' ++ writeQ c' = ["a"; "b"; "c"].
Proof.
  assert (Hag : transport_agrees Sample.client) by reflexivity.
  split; [exact Hag|].
  eexists. split; [vm_compute; reflexivity|].
  match goal with
  | |- (List.length (in_flight ?c') <= 1)%nat /\ _ =>
      assert (Hrun : run (collab := Sample.collaborators)
                       (Sample.burst success) Sample.client = Some c')
        by (vm_compute; reflexivity);
      destruct (write_queue_serialises_writes (collab := Sample.collaborators)
                  (Sample.burst success) Sample.client c' Hag Hrun)
        as (Hone & _ & _ & Hfifo)
  end.
  split; [exact Hone|].
  apply Hfifo; [discriminate | intros _; reflexivity | reflexivity].
Defined.

(** C1 as stated fails twice over: on a closing connection with no write in
    flight [MyWrite] starts nothing, and after a failed completion a new
    buffer overtakes the one left in the queue. *)
Lemma write_order_broken_by_closing_and_failure :
  (connection_type Sample.closing = connection_closing /\
   in_flight Sample.closing = [] /\
   in_flight (MyWrite "late" Sample.closing) = [] /\
   wire (MyWrite "late" Sample.closing) = wire Sample.closing) /\
  (exists c',
     run (collab := Sample.collaborators) (Sample.burst broken_pipe)
       Sample.client = Some c' /\
     requested (Sample.burst broken_pipe) = ["a"; "b"; "c"] /\
     wire c' = ["a"; "c"; "b"]).
Proof.
  split; [vm_compute; repeat split|].
  eexists. split; [vm_compute; reflexivity|].
  vm_compute. split; reflexivity.
Qed.

(** C9, at the connection that received a close frame. *)
Lemma MyWrite_is_noop_when_closing_witness :
  connection_type Sample.closing = connection_closing /\
  MyWrite "late" Sample.closing = Sample.closing /\
  fold_left (fun c' buf => MyWrite buf c') ["x"; "y"] Sample.closing
    = Sample.closing.
Proof.
  split; [reflexivity|].
  destruct (MyWrite_is_noop_when_closing Sample.closing eq_refl)
    as [Hone Hmany].
  split; [apply Hone | apply Hmany].
Defined.

(** C3, at a broken pipe reported for the upgrade response. *)
Lemma failed_write_only_clears_flag_witness :
  broken_pipe <> success /\
  handle_write broken_pipe 0 (set_in_flight [] Sample.upgraded)
    = set_write_in_progress false (set_in_flight [] Sample.upgraded).
Proof.
  split; [unfold broken_pipe, success; lia|].
  apply failed_write_only_clears_flag. unfold broken_pipe, success; lia.
Defined.

(** C10 as stated fails: the empty successful read asks the manager to stop
    the connection. *)
Lemma empty_read_asks_manager_to_stop :
  filter is_teardown (log Sample.client) = [] /\
  filter is_teardown
    (log (handle_read (collab := Sample.collaborators) success 0 ""
            Sample.client))
    = [ev_manager_stop].
Proof. vm_compute. split; reflexivity. Qed.

(** C2, at the upgraded connection. *)
Lemma timeout_acts_by_mode_witness :
  success <> operation_aborted /\
  connection_type Sample.upgraded = connection_websocket /\
  connection_type
    (Nat.iter 2 (handle_timeout (collab := Sample.collaborators) success)
       Sample.upgraded) = connection_websocket /\
  filter is_teardown
    (log (Nat.iter 2 (handle_timeout (collab := Sample.collaborators) success)
            Sample.upgraded)) = filter is_teardown (log Sample.upgraded).
Proof.
  assert (Hexp : success <> operation_aborted)
    by (unfold success, operation_aborted; lia).
  split; [exact Hexp|]. split; [reflexivity|].
  destruct (timeout_acts_by_mode (collab := Sample.collaborators) success
              Sample.upgraded Hexp) as (_ & Hws & _).
  destruct (Hws eq_refl 2) as (_ & Hmode & Hlog & _).
  split; [exact Hmode | exact Hlog].
Defined.

(** C2 as stated fails: a second expiry in a row sends a second probe and
    closes nothing. *)
Lemma second_timeout_only_probes_again :
  pending Sample.upgraded = ["101"] /\
  pending
    (handle_timeout (collab := Sample.collaborators) success
       (handle_timeout (collab := Sample.collaborators) success
          Sample.upgraded)) = ["101"; "<ping>"; "<ping>"] /\
  connection_type
    (handle_timeout (collab := Sample.collaborators) success
       (handle_timeout (collab := Sample.collaborators) success
          Sample.upgraded)) = connection_websocket /\
  filter is_teardown
    (log (handle_timeout (collab := Sample.collaborators) success
            (handle_timeout (collab := Sample.collaborators) success
               Sample.upgraded))) = [].
Proof. vm_compute. repeat split. Qed.

(** C7, at the upgraded connection while its response is being written. *)
Lemma stop_closes_at_once_witness :
  connection_type Sample.upgraded = connection_websocket /\
  write_in_progress Sample.upgraded = true /\
  log (stop (collab := Sample.collaborators) Sample.upgraded)
    = log Sample.upgraded ++ [ev_socket_close] /\
  writeQ (stop (collab := Sample.collaborators) Sample.upgraded)
    = writeQ Sample.upgraded ++ ["<close>"].
Proof.
  split; [reflexivity|]. split; [reflexivity|].
  destruct (stop_closes_at_once (collab := Sample.collaborators)
              Sample.upgraded eq_refl) as (_ & _ & Hbusy & _).
  destruct (Hbusy eq_refl) as (Hlog & Hq & _).
  split; [exact Hlog | exact Hq].
Defined.

(** C7 as stated fails: the transport is closed in the very call that stops
    the connection, with the response still being written, the close frame
    not yet handed to the transport, and the mode unchanged. *)
Lemma stop_closes_during_write :
  in_flight (stop (collab := Sample.collaborators) Sample.upgraded) = ["101"] /\
  wire (stop (collab := Sample.collaborators) Sample.upgraded) = ["101"] /\
  writeQ (stop (collab := Sample.collaborators) Sample.upgraded) = ["<close>"] /\
  log (stop (collab := Sample.collaborators) Sample.upgraded)
    = log Sample.upgraded ++ [ev_socket_close] /\
  connection_type (stop (collab := Sample.collaborators) Sample.upgraded)
    = connection_websocket.
Proof. vm_compute. repeat split. Qed.

(** C4, at an upgrade request that carries no Connection header. *)
Lemma upgrade_switches_to_websocket_witness :
  (0 < 7)%nat /\
  connection_type Sample.client = connection_http /\
  @request_parser_parse Sample.collaborators
    (buf_ Sample.client ++ substr 0 7 "GET /ws")%string
    = parse_returns tb_true Sample.upgrade_request 7 /\
  @get_req_header Sample.collaborators Sample.upgrade_request "Connection"
    = None /\
  connection_type
    (handle_read (collab := Sample.collaborators) success 7 "GET /ws"
       Sample.client) = connection_websocket /\
  keepalive_
    (handle_read (collab := Sample.collaborators) success 7 "GET /ws"
       Sample.client) = true.
Proof.
  split; [lia|]. split; [reflexivity|].
  split; [vm_compute; reflexivity|]. split; [reflexivity|].
  apply (upgrade_switches_to_websocket (collab := Sample.collaborators)
           7 "GET /ws" Sample.client Sample.upgrade_request 7);
    [lia | reflexivity | vm_compute; reflexivity | vm_compute; reflexivity].
Defined.

(** C5, at a request that asks for keep-alive in mixed letter case. *)
Lemma keep_alive_after_complete_request_witness :
  (0 < 7)%nat /\
  connection_type Sample.client = connection_http /\
  @request_parser_parse Sample.collaborators
    (buf_ Sample.client ++ substr 0 7 "GET /ka")%string
    = parse_returns tb_true Sample.keep_alive_request 7 /\
  keepalive_
    (handle_read (collab := Sample.collaborators) success 7 "GET /ka"
       Sample.client) = true /\
  reads_of
    (log (handle_read (collab := Sample.collaborators) success 7 "GET /ka"
            Sample.client)) = 2.
Proof.
  assert (Hparse :
            @request_parser_parse Sample.collaborators
              (buf_ Sample.client ++ substr 0 7 "GET /ka")%string
            = parse_returns tb_true Sample.keep_alive_request 7)
    by (vm_compute; reflexivity).
  split; [lia|]. split; [reflexivity|]. split; [exact Hparse|].
  destruct (keep_alive_after_complete_request (collab := Sample.collaborators)
              7 "GET /ka" Sample.client Sample.keep_alive_request 7
              (Nat.lt_0_succ 6) eq_refl Hparse)
    as (_ & Hflag & Hreads & _).
  split; [exact Hflag|].
  destruct (Hreads eq_refl) as (Hcount & _). exact Hcount.
Defined.

(** C5 as stated fails: an upgrade request without a Connection header
    leaves the keep-alive flag set; and the further read of a keep-alive
    request is issued while its response is still being written, the
    completion of that write issuing none. *)
Lemma keep_alive_flag_and_read_differ :
  (asks_keep_alive (collab := Sample.collaborators) Sample.upgrade_request
     = false /\
   keepalive_
     (handle_read (collab := Sample.collaborators) success 7 "GET /ws"
        Sample.client) = true) /\
  (reads_of (log Sample.client) = 1 /\
   reads_of
     (log (handle_read (collab := Sample.collaborators) success 7 "GET /ka"
             Sample.client)) = 2 /\
   in_flight
     (handle_read (collab := Sample.collaborators) success 7 "GET /ka"
        Sample.client) = ["200 hello 10.0.0.5"] /\
   exists c',
     complete_write success
       (handle_read (collab := Sample.collaborators) success 7 "GET /ka"
          Sample.client) = Some c' /\
     reads_of (log c') = 2).
Proof.
  split; [vm_compute; split; reflexivity|].
  split; [vm_compute; reflexivity|].
  split; [vm_compute; reflexivity|].
  split; [vm_compute; reflexivity|].
  eexists. split; vm_compute; reflexivity.
Qed.

(** C6, at garbage that arrives while an earlier response is being written. *)
Lemma malformed_request_is_answered_then_closed_witness :
  (0 < 3)%nat /\
  connection_type Sample.answering = connection_http /\
  transport_agrees Sample.answering /\
  rejected
    (@request_parser_parse Sample.collaborators
       (buf_ Sample.answering ++ substr 0 3 "xyz")%string)
    = Some empty_request /\
  writeQ
    (handle_read (collab := Sample.collaborators) success 3 "xyz"
       Sample.answering) = ["400"] /\
  keepalive_
    (handle_read (collab := Sample.collaborators) success 3 "xyz"
       Sample.answering) = false /\
  exists c2,
    run (collab := Sample.collaborators) (completions 2)
      (handle_read (collab := Sample.collaborators) success 3 "xyz"
         Sample.answering) = Some c2 /\
    log c2 =
      log (handle_read (collab := Sample.collaborators) success 3 "xyz"
             Sample.answering)
      ++ [ev_async_write "400"; ev_socket_shutdown; ev_manager_stop].
Proof.
  assert (Hrej :
            rejected
              (@request_parser_parse Sample.collaborators
                 (buf_ Sample.answering ++ substr 0 3 "xyz")%string)
            = Some empty_request) by (vm_compute; reflexivity).
  assert (Hag : transport_agrees Sample.answering) by reflexivity.
  split; [lia|]. split; [reflexivity|]. split; [exact Hag|].
  split; [exact Hrej|].
  destruct (malformed_request_is_answered_then_closed
              (collab := Sample.collaborators) 3 "xyz" Sample.answering
              empty_request (Nat.lt_0_succ 2) eq_refl Hag Hrej)
    as (Hqueued & Hka & _ & _ & c2 & Hrun & Hlog).
  split; [exact (proj2 Hqueued)|]. split; [exact Hka|].
  exists c2. split.
  - replace 2 with
      (List.length
         (pending
            (handle_read (collab := Sample.collaborators) success 3 "xyz"
               Sample.answering))) by (vm_compute; reflexivity).
    exact Hrun.
  - rewrite Hlog. f_equal.
Defined.

(** C8, at a peer reported as an IPv4-mapped IPv6 address. *)
Lemma dispatched_host_is_normalised_peer_witness :
  (0 < 7)%nat /\
  connection_type (Sample.fresh "::ffff:10.0.0.5") = connection_http /\
  @request_parser_parse Sample.collaborators
    (buf_ (Sample.fresh "::ffff:10.0.0.5") ++ substr 0 7 "GET /ka")%string
    = parse_returns tb_true Sample.keep_alive_request 7 /\
  exists r,
    requests_of
      (log (handle_read (collab := Sample.collaborators) success 7 "GET /ka"
              (Sample.fresh "::ffff:10.0.0.5"))) = [r] /\
    host r = "10.0.0.5".
Proof.
  assert (Hparse :
            @request_parser_parse Sample.collaborators
              (buf_ (Sample.fresh "::ffff:10.0.0.5")
                 ++ substr 0 7 "GET /ka")%string
            = parse_returns tb_true Sample.keep_alive_request 7)
    by (vm_compute; reflexivity).
  split; [lia|]. split; [reflexivity|]. split; [exact Hparse|].
  destruct (dispatched_host_is_normalised_peer (collab := Sample.collaborators)
              7 "GET /ka" (Sample.fresh "::ffff:10.0.0.5")
              Sample.keep_alive_request 7 (Nat.lt_0_succ 6) eq_refl Hparse)
    as (r & Hreq & _ & Hmapped & _).
  exists r. split; [exact Hreq|].
  apply Hmapped. reflexivity.
Defined.

(** * The life of a connection *)

Section Lifecycle.

Context {collab : Collaborators}.

(** Case analysis on every branch a member function takes. *)
Ltac branches :=
  repeat match goal with
    | |- context [if ?b then _ else _] => destruct b eqn:?
    | |- context [match ?x with _ => _ end] => destruct x eqn:?
    end.

Ltac normalise_effects :=
  rewrite ?read_more_effect, ?SocketWrite_effect; cbn [log connection_type
    keepalive_ timeout_ secure_ buf_ writeQ in_flight write_in_progress
    write_buffer host_endpoint_ emit set_keepalive set_connection_type
    set_buf set_writeQ set_in_flight set_write_buffer set_write_in_progress
    set_host_endpoint buf_commit buf_consume].

Ltac known_mode :=
  repeat match goal with
    | H : connection_type ?c = _ |- context [connection_type ?c] => rewrite H
    end.

Lemma arms_of_app (l1 l2 : list event) :
  arms_of (l1 ++ l2) = arms_of l1 ++ arms_of l2.
Proof.
  induction l1 as [|e l1 IH]; simpl; [reflexivity|].
  destruct e; simpl; rewrite ?IH; reflexivity.
Qed.

(** ** Modes only move forward *)

Lemma handle_read_mode (error : error_code) (n : nat) (incoming : string)
    (c : connection) :
  mode_rank (connection_type c)
    <= mode_rank (connection_type (handle_read error n incoming c)).
Proof.
  unfold handle_read.
  destruct (ec_not error && (0 <? n)%nat);
    [|destruct (ec_differs_from_aborted error); apply Nat.le_refl].
  change (connection_type (buf_commit n incoming (emit ev_timer_cancel c)))
    with (connection_type c).
  destruct (connection_type c) eqn:Hmode.
  - destruct (request_parser_parse _) as [r q k | q];
      [destruct r|]; cbn [tribool_is_true tribool_is_false]; cbv iota;
      branches; normalise_effects; rewrite ?MyWrite_connection_type;
      normalise_effects; rewrite ?Hmode; simpl; lia.
  - destruct (websocket_parse _ _) as [[r k] ka]; destruct r;
      cbn [tribool_is_true tribool_is_false]; cbv iota;
      branches; normalise_effects; rewrite ?Hmode; simpl; lia.
  - destruct (websocket_parse _ _) as [[r k] ka]; destruct r;
      cbn [tribool_is_true tribool_is_false]; cbv iota;
      branches; normalise_effects; rewrite ?Hmode; simpl; lia.
Qed.

Lemma handle_write_mode (error : error_code) (n : nat) (c : connection) :
  connection_type (handle_write error n c) = connection_type c.
Proof.
  unfold handle_write. cbn [writeQ keepalive_ set_write_in_progress].
  branches; normalise_effects; reflexivity.
Qed.

Lemma perform_mode (k : call) (c c' : connection) :
  perform k c = Some c' ->
  mode_rank (connection_type c) <= mode_rank (connection_type c').
Proof.
  destruct k; simpl.
  - intros [= <-]. unfold start. branches; normalise_effects; lia.
  - intros [= <-]. unfold handle_handshake.
    branches; normalise_effects; lia.
  - intros [= <-]. apply handle_read_mode.
  - intros [= <-]. unfold handle_timeout, SendPing.
    branches; normalise_effects; rewrite ?MyWrite_connection_type;
      known_mode; lia.
  - intros [= <-]. rewrite MyWrite_connection_type. lia.
  - unfold complete_write. destruct (in_flight c); [discriminate|].
    intros [= <-]. rewrite handle_write_mode. simpl. lia.
  - intros [= <-]. unfold stop, SendClose.
    branches; normalise_effects; rewrite ?MyWrite_connection_type;
      known_mode; lia.
Qed.

(** X1: along every sequence of calls the mode only moves forward in the
    order HTTP, framed push, closing: it never returns to an earlier mode,
    and a closing connection stays closing. *)
Theorem mode_only_moves_forward :
  forall (calls : list call) (c c' : connection),
    run calls c = Some c' ->
    mode_rank (connection_type c) <= mode_rank (connection_type c') /\
    (connection_type c = connection_closing ->
       connection_type c' = connection_closing).
Proof.
  intros calls c c' Hrun.
  assert (Hle : mode_rank (connection_type c)
                  <= mode_rank (connection_type c')).
  { revert c Hrun. induction calls as [|k calls IH]; intros c; simpl.
    - intros [= <-]. lia.
    - destruct (perform k c) as [c1|] eqn:Hk; [|discriminate].
      intros Hrun. apply perform_mode in Hk. apply IH in Hrun. lia. }
  split; [exact Hle|].
  intros Hclosing. rewrite Hclosing in Hle.
  destruct (connection_type c'); simpl in Hle; trivial; lia.
Qed.

(** ** After the upgrade the request handler is out of the picture *)

Lemma MyWrite_arms (buf : string) (c : connection) :
  arms_of (log (MyWrite buf c)) = arms_of (log c).
Proof.
  unfold MyWrite.
  destruct (connection_type c); destruct (write_in_progress c);
    rewrite ?SocketWrite_effect; simpl; rewrite ?arms_of_app; simpl;
    rewrite ?app_nil_r; reflexivity.
Qed.

Lemma MyWrite_timeout (buf : string) (c : connection) :
  timeout_ (MyWrite buf c) = timeout_ c.
Proof.
  unfold MyWrite.
  destruct (connection_type c); destruct (write_in_progress c);
    rewrite ?SocketWrite_effect; reflexivity.
Qed.

Ltac through_logs :=
  repeat progress
    (rewrite ?requests_of_app, ?arms_of_app, ?reads_of_app, ?writes_of_app,
       ?filter_app, ?MyWrite_requests, ?MyWrite_arms, ?MyWrite_reads,
       ?MyWrite_teardown, ?MyWrite_timeout, ?MyWrite_connection_type,
       ?MyWrite_keepalive;
     normalise_effects).

Lemma handle_read_requests_upgraded (error : error_code) (n : nat)
    (incoming : string) (c : connection) :
  connection_type c <> connection_http ->
  requests_of (log (handle_read error n incoming c)) = requests_of (log c).
Proof.
  intros Hmode. unfold handle_read.
  destruct (ec_not error && (0 <? n)%nat);
    [|destruct (ec_differs_from_aborted error); through_logs; simpl;
      now rewrite ?app_nil_r].
  change (connection_type (buf_commit n incoming (emit ev_timer_cancel c)))
    with (connection_type c).
  destruct (connection_type c) eqn:Hc; [congruence| |];
    (destruct (websocket_parse _ _) as [[r k] ka]; destruct r;
     cbn [tribool_is_true tribool_is_false]; cbv iota;
     branches; through_logs; simpl; now rewrite ?app_nil_r).
Qed.

Lemma handle_write_requests (error : error_code) (n : nat) (c : connection) :
  requests_of (log (handle_write error n c)) = requests_of (log c).
Proof.
  unfold handle_write. cbn [writeQ keepalive_ set_write_in_progress].
  branches; through_logs; simpl; now rewrite ?app_nil_r.
Qed.

Lemma perform_requests_upgraded (k : call) (c c' : connection) :
  connection_type c <> connection_http ->
  perform k c = Some c' ->
  requests_of (log c') = requests_of (log c).
Proof.
  intros Hmode. destruct k; simpl.
  - intros [= <-]. unfold start.
    branches; through_logs; simpl; now rewrite ?app_nil_r.
  - intros [= <-]. unfold handle_handshake.
    branches; through_logs; simpl; now rewrite ?app_nil_r.
  - intros [= <-]. now apply handle_read_requests_upgraded.
  - intros [= <-]. unfold handle_timeout, SendPing.
    branches; through_logs; simpl; now rewrite ?app_nil_r.
  - intros [= <-]. apply MyWrite_requests.
  - unfold complete_write. destruct (in_flight c); [discriminate|].
    intros [= <-]. now rewrite handle_write_requests.
  - intros [= <-]. unfold stop, SendClose.
    branches; through_logs; simpl; now rewrite ?app_nil_r.
Qed.

(** X2: once a connection has left the HTTP mode, no sequence of calls makes
    it hand anything to the HTTP request handler again. *)
Theorem no_request_dispatched_after_upgrade :
  forall (calls : list call) (c c' : connection),
    connection_type c <> connection_http ->
    run calls c = Some c' ->
    requests_of (log c') = requests_of (log c) /\
    connection_type c' <> connection_http.
Proof.
  induction calls as [|k calls IH]; intros c c' Hmode; simpl.
  - intros [= <-]. auto.
  - destruct (perform k c) as [c1|] eqn:Hk; [|discriminate].
    intros Hrun.
    assert (Hmode1 : connection_type c1 <> connection_http).
    { apply perform_mode in Hk. intros H1. rewrite H1 in Hk.
      destruct (connection_type c); simpl in Hk; [congruence|lia|lia]. }
    destruct (IH c1 c' Hmode1 Hrun) as [Hreq Hm]. split; [|exact Hm].
    rewrite Hreq. now apply (perform_requests_upgraded k c c1).
Qed.

(** ** Every read is issued under an armed timer *)

Ltac settle_pairing :=
  first
    [ exists 0; simpl; rewrite ?app_nil_r, ?Nat.add_0_r;
      repeat split; reflexivity || lia
    | exists 1; simpl; rewrite <- ?app_assoc; simpl;
      rewrite ?app_nil_r; repeat split; reflexivity || lia ].

Lemma handle_read_pairing (error : error_code) (n : nat) (incoming : string)
    (c : connection) :
  exists k,
    arms_of (log (handle_read error n incoming c))
      = arms_of (log c) ++ repeat (timeout_ c) k /\
    reads_of (log (handle_read error n incoming c)) = reads_of (log c) + k /\
    timeout_ (handle_read error n incoming c) = timeout_ c.
Proof.
  unfold handle_read.
  destruct (ec_not error && (0 <? n)%nat);
    [|destruct (ec_differs_from_aborted error); through_logs;
      settle_pairing].
  change (connection_type (buf_commit n incoming (emit ev_timer_cancel c)))
    with (connection_type c).
  destruct (connection_type c) eqn:Hc.
  - destruct (request_parser_parse _) as [r q k | q];
      [destruct r|]; cbn [tribool_is_true tribool_is_false]; cbv iota;
      branches; through_logs; settle_pairing.
  - destruct (websocket_parse _ _) as [[r k] ka]; destruct r;
      cbn [tribool_is_true tribool_is_false]; cbv iota;
      branches; through_logs; settle_pairing.
  - destruct (websocket_parse _ _) as [[r k] ka]; destruct r;
      cbn [tribool_is_true tribool_is_false]; cbv iota;
      branches; through_logs; settle_pairing.
Qed.

Lemma perform_pairing (k : call) (c c' : connection) :
  perform k c = Some c' ->
  exists j,
    arms_of (log c') = arms_of (log c) ++ repeat (timeout_ c) j /\
    reads_of (log c') = reads_of (log c) + j /\
    timeout_ c' = timeout_ c.
Proof.
  destruct k; simpl.
  - intros [= <-]. unfold start. branches; through_logs; settle_pairing.
  - intros [= <-]. unfold handle_handshake.
    branches; through_logs; settle_pairing.
  - intros [= <-]. apply handle_read_pairing.
  - intros [= <-]. unfold handle_timeout, SendPing.
    branches; through_logs; settle_pairing.
  - intros [= <-]. through_logs. settle_pairing.
  - unfold complete_write. destruct (in_flight c); [discriminate|].
    intros [= <-]. unfold handle_write.
    cbn [writeQ keepalive_ set_write_in_progress set_in_flight].
    branches; through_logs; settle_pairing.
  - intros [= <-]. unfold stop, SendClose.
    branches; through_logs; settle_pairing.
Qed.

(** X3: the configured timeout never changes, and along every sequence of
    calls the reads a connection issues and the arms of its liveness timer go
    one for one: each further read comes with one further arm of the timer,
    for the configured duration. *)
Theorem reads_and_timer_arms_go_together :
  forall (calls : list call) (c c' : connection),
    run calls c = Some c' ->
    timeout_ c' = timeout_ c /\
    exists k,
      reads_of (log c') = reads_of (log c) + k /\
      arms_of (log c') = arms_of (log c) ++ repeat (timeout_ c) k.
Proof.
  induction calls as [|k calls IH]; intros c c'; simpl.
  - intros [= <-]. split; [reflexivity|]. exists 0. simpl.
    now rewrite app_nil_r, Nat.add_0_r.
  - destruct (perform k c) as [c1|] eqn:Hk; [|discriminate].
    intros Hrun.
    destruct (perform_pairing k c c1 Hk) as (j & Harm & Hread & Hto).
    destruct (IH c1 c' Hrun) as (Hto' & j' & Hread' & Harm').
    split; [congruence|]. exists (j + j'). split; [lia|].
    rewrite Harm', Harm, Hto, <- app_assoc, repeat_app. reflexivity.
Qed.

(** ** Cancelled completions *)

Lemma perform_cancelled (k : call) (c c' : connection) :
  is_cancelled_completion k = true ->
  perform k c = Some c' ->
  wire c' = wire c /\
  reads_of (log c') = reads_of (log c) /\
  arms_of (log c') = arms_of (log c) /\
  filter is_teardown (log c') = filter is_teardown (log c) /\
  requests_of (log c') = requests_of (log c) /\
  connection_type c' = connection_type c /\
  keepalive_ c' = keepalive_ c /\
  writeQ c' = writeQ c /\
  buf_ c' = buf_ c.
Proof.
  destruct k; try discriminate; simpl; intros Hab;
    apply Z.eqb_eq in Hab; subst error.
  - intros [= <-].
    change (handle_read operation_aborted bytes_transferred incoming c)
      with (emit ev_timer_cancel c).
    unfold wire. through_logs. simpl. rewrite !app_nil_r, Nat.add_0_r.
    repeat split.
  - intros [= <-].
    change (handle_timeout operation_aborted c) with c. repeat split.
  - unfold complete_write. destruct (in_flight c); [discriminate|].
    intros [= <-]. repeat split.
Qed.

(** X4: completions that report [operation_aborted] - of a read, of the
    timer or of a write - start no read and no write, dispatch nothing, ask
    for no teardown, and leave the mode, the keep-alive flag, the queue and
    the read buffer as they were, however many of them arrive. *)
Theorem cancelled_completions_are_inert :
  forall (calls : list call) (c c' : connection),
    forallb is_cancelled_completion calls = true ->
    run calls c = Some c' ->
    wire c' = wire c /\
    reads_of (log c') = reads_of (log c) /\
    arms_of (log c') = arms_of (log c) /\
    filter is_teardown (log c') = filter is_teardown (log c) /\
    requests_of (log c') = requests_of (log c) /\
    connection_type c' = connection_type c /\
    keepalive_ c' = keepalive_ c /\
    writeQ c' = writeQ c /\
    buf_ c' = buf_ c.
Proof.
  induction calls as [|k calls IH]; intros c c' Hall; simpl.
  - intros [= <-]. repeat split.
  - simpl in Hall. apply andb_true_iff in Hall as [Hk Hall].
    destruct (perform k c) as [c1|] eqn:Hperf; [|discriminate].
    intros Hrun.
    destruct (perform_cancelled k c c1 Hk Hperf)
      as (A1 & A2 & A3 & A4 & A5 & A6 & A7 & A8 & A9).
    destruct (IH c1 c' Hall Hrun)
      as (B1 & B2 & B3 & B4 & B5 & B6 & B7 & B8 & B9).
    repeat split; congruence.
Qed.

(** ** The handshake comes before the first read *)

(** X5: a secure connection that is started records the peer address and
    asks for the handshake without issuing a read; the read, under an armed
    timer, is issued when the handshake completes successfully, and a
    handshake that reports any error asks the manager to stop the connection
    instead. *)
Theorem secure_connection_reads_after_handshake :
  forall (peer : string) (c : connection),
    secure_ c = true ->
    host_endpoint_ (start peer c) = peer /\
    log (start peer c) = log c ++ [ev_async_handshake] /\
    log (handle_handshake success (start peer c))
      = log c ++ [ev_async_handshake;
                  ev_timer_expires_from_now (timeout_ c);
                  ev_async_read_some] /\
    (forall error, error <> success ->
       log (handle_handshake error (start peer c))
         = log c ++ [ev_async_handshake; ev_manager_stop]).
Proof.
  intros peer c Hsec.
  assert (Hstart : start peer c
                   = emit ev_async_handshake (set_host_endpoint peer c)).
  { unfold start. cbn [secure_ set_host_endpoint]. now rewrite Hsec. }
  rewrite Hstart. split; [reflexivity|]. split; [reflexivity|].
  unfold handle_handshake. cbn [secure_ emit set_host_endpoint].
  rewrite Hsec. split.
  - change (ec_not success) with true. cbv iota. rewrite read_more_effect.
    simpl. now rewrite <- !app_assoc.
  - intros error Herr. apply Z.eqb_neq in Herr. unfold success in Herr.
    unfold ec_not. rewrite Herr. simpl. now rewrite <- app_assoc.
Qed.

(** ** No buffer is left behind *)

Lemma idle_MyWrite (buf : string) (c : connection) :
  idle_queue_empty c -> idle_queue_empty (MyWrite buf c).
Proof.
  intros H. unfold MyWrite.
  destruct (connection_type c); trivial;
    (destruct (write_in_progress c) eqn:Hw;
     [ intros Hf; simpl in Hf; congruence
     | rewrite SocketWrite_effect; intros Hf; discriminate ]).
Qed.

Lemma idle_through (c c' : connection) :
  write_in_progress c' = write_in_progress c ->
  writeQ c' = writeQ c ->
  idle_queue_empty c -> idle_queue_empty c'.
Proof. unfold idle_queue_empty. intros -> ->. trivial. Qed.

Lemma handle_read_idle (error : error_code) (n : nat) (incoming : string)
    (c : connection) :
  idle_queue_empty c -> idle_queue_empty (handle_read error n incoming c).
Proof.
  intros H. unfold handle_read.
  destruct (ec_not error && (0 <? n)%nat);
    [|destruct (ec_differs_from_aborted error); exact H].
  change (connection_type (buf_commit n incoming (emit ev_timer_cancel c)))
    with (connection_type c).
  destruct (connection_type c) eqn:Hc.
  - destruct (request_parser_parse _) as [r q k | q];
      [destruct r|]; cbn [tribool_is_true tribool_is_false]; cbv iota;
      branches; rewrite ?read_more_effect;
      repeat first
        [ exact H
        | apply idle_MyWrite
        | eapply idle_through; [reflexivity | reflexivity |] ].
  - destruct (websocket_parse _ _) as [[r k] ka]; destruct r;
      cbn [tribool_is_true tribool_is_false]; cbv iota;
      branches; rewrite ?read_more_effect; exact H.
  - destruct (websocket_parse _ _) as [[r k] ka]; destruct r;
      cbn [tribool_is_true tribool_is_false]; cbv iota;
      branches; rewrite ?read_more_effect; exact H.
Qed.

Lemma perform_idle (k : call) (c c' : connection) :
  no_failed_write k = true ->
  idle_queue_empty c ->
  perform k c = Some c' ->
  idle_queue_empty c'.
Proof.
  intros Hk H. destruct k; simpl.
  - intros [= <-]. unfold start. branches; rewrite ?read_more_effect; exact H.
  - intros [= <-]. unfold handle_handshake.
    branches; rewrite ?read_more_effect; exact H.
  - intros [= <-]. now apply handle_read_idle.
  - intros [= <-]. unfold handle_timeout, SendPing.
    branches; try exact H; now apply idle_MyWrite.
  - intros [= <-]. now apply idle_MyWrite.
  - unfold complete_write. destruct (in_flight c); [discriminate|].
    intros [= <-]. unfold handle_write. simpl in Hk. rewrite Hk.
    cbn [writeQ keepalive_ set_write_in_progress set_in_flight].
    destruct (writeQ c) as [|front q] eqn:Hq.
    + destruct (negb (keepalive_ c)); intros _; exact Hq.
    + rewrite SocketWrite_effect. intros Hf. discriminate.
  - intros [= <-]. unfold stop, SendClose.
    branches;
      (eapply idle_through; [reflexivity | reflexivity |]);
      try exact H; now apply idle_MyWrite.
Qed.

(** X6: as long as no write completion reports a failure, no buffer is left
    behind in the queue: in every state a new connection reaches, a queued
    buffer means a write is in progress, and the successful completion of
    that write hands the head of the queue to the transport and keeps the
    rest queued. *)
Theorem queued_buffers_are_not_stranded :
  forall (secure : bool) (timeout : Z) (calls : list call) (c' : connection),
    forallb no_failed_write calls = true ->
    run calls (new_connection secure timeout) = Some c' ->
    forall (front : string) (rest : list string),
      writeQ c' = front :: rest ->
      write_in_progress c' = true /\
      in_flight c' = [write_buffer c'] /\
      exists c'',
        complete_write success c' = Some c'' /\
        wire c'' = wire c' ++ [front] /\
        in_flight c'' = [front] /\
        writeQ c'' = rest.
Proof.
  intros secure timeout calls c' Hall Hrun front rest Hq.
  assert (Hag : transport_agrees c')
    by (eapply agrees_run; [apply agrees_new_connection | exact Hrun]).
  assert (Hidle : idle_queue_empty c').
  { assert (Hgen : forall calls c, forallb no_failed_write calls = true ->
                     idle_queue_empty c -> run calls c = Some c' ->
                     idle_queue_empty c').
    { clear. induction calls as [|k calls IH]; intros c Hall Hc; simpl.
      - now intros [= <-].
      - simpl in Hall. apply andb_true_iff in Hall as [Hk Hall].
        destruct (perform k c) as [c1|] eqn:Hperf; [|discriminate].
        apply IH; trivial. now apply (perform_idle k c c1). }
    apply (Hgen calls (new_connection secure timeout)); trivial.
    intros _. reflexivity. }
  assert (Hw : write_in_progress c' = true).
  { destruct (write_in_progress c') eqn:Hw; trivial.
    rewrite (Hidle Hw) in Hq. discriminate. }
  split; [exact Hw|]. split; [now apply agrees_busy|].
  unfold complete_write. rewrite (agrees_busy c' Hag Hw).
  eexists. split; [reflexivity|].
  unfold handle_write. change (ec_not success) with true. cbv iota.
  cbn [writeQ set_write_in_progress set_in_flight]. rewrite Hq.
  rewrite SocketWrite_effect. unfold wire. simpl.
  rewrite writes_of_app. simpl. repeat split.
Qed.

(** ** What a member function does is independent of the history *)

Lemma prepend_emit (l : list event) (e : event) (c : connection) :
  emit e (prepend_log l c) = prepend_log l (emit e c).
Proof. unfold emit, prepend_log, set_log; simpl. now rewrite app_assoc. Qed.

Lemma prepend_read_more (l : list event) (c : connection) :
  read_more (prepend_log l c) = prepend_log l (read_more c).
Proof.
  rewrite !read_more_effect. cbn [timeout_ prepend_log set_log].
  now rewrite !prepend_emit.
Qed.

Lemma prepend_MyWrite (l : list event) (buf : string) (c : connection) :
  MyWrite buf (prepend_log l c) = prepend_log l (MyWrite buf c).
Proof.
  unfold MyWrite. cbn [connection_type write_in_progress prepend_log set_log].
  destruct (connection_type c); trivial;
    (destruct (write_in_progress c); [reflexivity|];
     rewrite !SocketWrite_effect;
     unfold emit, prepend_log, set_log; simpl; now rewrite app_assoc).
Qed.

Lemma prepend_set_keepalive (l : list event) (b : bool) (c : connection) :
  set_keepalive b (prepend_log l c) = prepend_log l (set_keepalive b c).
Proof. reflexivity. Qed.

Lemma prepend_set_connection_type (l : list event) (t : connection_type_t)
    (c : connection) :
  set_connection_type t (prepend_log l c)
    = prepend_log l (set_connection_type t c).
Proof. reflexivity. Qed.

Lemma prepend_buf_commit (l : list event) (n : nat) (incoming : string)
    (c : connection) :
  buf_commit n incoming (prepend_log l c)
    = prepend_log l (buf_commit n incoming c).
Proof. reflexivity. Qed.

Lemma prepend_buf_consume (l : list event) (n : nat) (c : connection) :
  buf_consume n (prepend_log l c) = prepend_log l (buf_consume n c).
Proof. reflexivity. Qed.

Lemma prepend_connection_type (l : list event) (c : connection) :
  connection_type (prepend_log l c) = connection_type c.
Proof. reflexivity. Qed.

Lemma prepend_keepalive (l : list event) (c : connection) :
  keepalive_ (prepend_log l c) = keepalive_ c.
Proof. reflexivity. Qed.

Lemma prepend_host_endpoint (l : list event) (c : connection) :
  host_endpoint_ (prepend_log l c) = host_endpoint_ c.
Proof. reflexivity. Qed.

Lemma prepend_buf (l : list event) (c : connection) :
  buf_ (prepend_log l c) = buf_ c.
Proof. reflexivity. Qed.

Local Opaque prepend_log.

Ltac push_history :=
  repeat progress
    (rewrite ?prepend_emit, ?prepend_read_more, ?prepend_MyWrite,
       ?prepend_set_keepalive, ?prepend_set_connection_type,
       ?prepend_buf_commit, ?prepend_buf_consume,
       ?prepend_connection_type, ?prepend_keepalive,
       ?prepend_host_endpoint, ?prepend_buf).

Ltac fields :=
  cbn [log connection_type keepalive_ timeout_ secure_ buf_ writeQ in_flight
       write_in_progress write_buffer host_endpoint_ emit set_keepalive
       set_connection_type set_buf set_writeQ set_in_flight set_write_buffer
       set_write_in_progress set_host_endpoint buf_commit buf_consume].

Ltac branch :=
  match goal with
  | |- context [match ?x with _ => _ end] =>
      lazymatch x with
      | context [match _ with _ => _ end] => fail
      | _ => destruct x eqn:?
      end
  end.

Lemma prepend_handle_read (l : list event) (error : error_code) (n : nat)
    (incoming : string) (c : connection) :
  handle_read error n incoming (prepend_log l c)
    = prepend_log l (handle_read error n incoming c).
Proof.
  unfold handle_read.
  destruct (ec_not error && (0 <? n)%nat);
    [|destruct (ec_differs_from_aborted error); now push_history].
  push_history.
  destruct (connection_type
              (buf_commit n incoming (emit ev_timer_cancel c))).
  - destruct (request_parser_parse _) as [r q k | q];
      [destruct r|]; cbn [tribool_is_true tribool_is_false]; cbv iota;
      repeat (push_history; branch); push_history; reflexivity.
  - destruct (websocket_parse _ _) as [[r k] ka]; destruct r;
      cbn [tribool_is_true tribool_is_false]; cbv iota;
      repeat (push_history; branch); push_history; reflexivity.
  - destruct (websocket_parse _ _) as [[r k] ka]; destruct r;
      cbn [tribool_is_true tribool_is_false]; cbv iota;
      repeat (push_history; branch); push_history; reflexivity.
Qed.

Local Transparent prepend_log.

(** ** Requests that arrive in pieces *)

Lemma string_app_nil_r (s : string) : (s ++ "")%string = s.
Proof. induction s as [|a s IH]; simpl; congruence. Qed.

Lemma string_app_assoc (s t u : string) :
  ((s ++ t) ++ u)%string = (s ++ t ++ u)%string.
Proof. induction s as [|a s IH]; simpl; congruence. Qed.

Lemma string_app_length (s t : string) :
  String.length (s ++ t) = String.length s + String.length t.
Proof. induction s as [|a s IH]; simpl; congruence. Qed.

Lemma nonempty_length (s : string) : s <> "" -> (0 < String.length s)%nat.
Proof. destruct s; [congruence | simpl; lia]. Qed.

Lemma handle_read_incomplete (n : nat) (incoming : string) (c : connection)
    (req : request) (k : nat) :
  (0 < n)%nat ->
  connection_type c = connection_http ->
  request_parser_parse (buf_ c ++ substr 0 n incoming)%string
    = parse_returns tb_indeterminate req k ->
  handle_read success n incoming c
    = set_log
        (log c ++ [ev_timer_cancel; ev_timer_expires_from_now (timeout_ c);
                   ev_async_read_some])
        (set_buf (buf_ c ++ substr 0 n incoming)%string c).
Proof.
  intros Hn Hmode Hparse. unfold handle_read.
  replace (0 <? n)%nat with true by (symmetry; apply Nat.ltb_lt; exact Hn).
  change (ec_not success && true) with true. cbv iota.
  change (connection_type (buf_commit n incoming (emit ev_timer_cancel c)))
    with (connection_type c).
  rewrite Hmode.
  change (buf_ (buf_commit n incoming (emit ev_timer_cancel c)))
    with (buf_ c ++ substr 0 n incoming)%string.
  rewrite Hparse. cbn [tribool_is_true tribool_is_false]. cbv iota.
  rewrite read_more_effect. unfold set_log, set_buf, buf_commit, emit; simpl.
  now rewrite <- !app_assoc.
Qed.

Lemma feed_partial (chunks : list string) :
  forall c : connection,
    connection_type c = connection_http ->
    Forall (fun chunk => chunk <> "") chunks ->
    (forall seen rest, chunks = seen ++ rest -> seen <> [] ->
       exists req k,
         request_parser_parse (buf_ c ++ joined seen)%string
           = parse_returns tb_indeterminate req k) ->
    exists E,
      feed chunks c
        = set_log (log c ++ E)
            (set_buf (buf_ c ++ joined chunks)%string c) /\
      writes_of E = [] /\
      requests_of E = [] /\
      filter is_teardown E = [] /\
      reads_of E = List.length chunks.
Proof.
  induction chunks as [|chunk chunks IH]; intros c Hmode Hne Hpartial.
  - exists []. split; [|repeat split].
    unfold feed. simpl. rewrite app_nil_r, string_app_nil_r.
    destruct c; reflexivity.
  - inversion Hne as [|? ? Hchunk Hrest]; subst.
    destruct (Hpartial [chunk] chunks eq_refl) as (req & k & Hparse);
      [discriminate|].
    simpl joined in Hparse. rewrite string_app_nil_r in Hparse.
    pose proof (handle_read_incomplete (String.length chunk) chunk c req k
                  (nonempty_length chunk Hchunk) Hmode) as Hstep.
    unfold substr in Hstep. rewrite substring_whole in Hstep.
    specialize (Hstep Hparse).
    destruct (IH (handle_read success (String.length chunk) chunk c))
      as (E & Hfeed & Hw & Hr & Ht & Hn).
    + rewrite Hstep. exact Hmode.
    + exact Hrest.
    + intros seen rest Hsplit Hseen. rewrite Hstep.
      cbn [buf_ set_log set_buf]. rewrite string_app_assoc.
      apply (Hpartial (chunk :: seen) rest); [|discriminate].
      simpl. now rewrite Hsplit.
    + exists ([ev_timer_cancel; ev_timer_expires_from_now (timeout_ c);
               ev_async_read_some] ++ E).
      split.
      * unfold feed in *. simpl fold_left. rewrite Hfeed, Hstep.
        unfold set_log, set_buf; simpl.
        now rewrite string_app_assoc, <- !app_assoc.
      * rewrite writes_of_app, requests_of_app, filter_app, reads_of_app,
          Hw, Hr, Ht, Hn. simpl. repeat split.
Qed.

(** X7: while the HTTP parser cannot yet decide, the bytes of successive
    reads pile up in the read buffer in arrival order; every such read
    issues the next one, and nothing is written, dispatched or torn down. *)
Theorem partial_requests_accumulate :
  forall (chunks : list string) (c : connection),
    connection_type c = connection_http ->
    Forall (fun chunk => chunk <> "") chunks ->
    (forall seen rest, chunks = seen ++ rest -> seen <> [] ->
       exists req k,
         request_parser_parse (buf_ c ++ joined seen)%string
           = parse_returns tb_indeterminate req k) ->
    buf_ (feed chunks c) = (buf_ c ++ joined chunks)%string /\
    reads_of (log (feed chunks c)) = reads_of (log c) + List.length chunks /\
    wire (feed chunks c) = wire c /\
    requests_of (log (feed chunks c)) = requests_of (log c) /\
    filter is_teardown (log (feed chunks c)) = filter is_teardown (log c) /\
    connection_type (feed chunks c) = connection_http /\
    keepalive_ (feed chunks c) = keepalive_ c /\
    writeQ (feed chunks c) = writeQ c /\
    in_flight (feed chunks c) = in_flight c.
Proof.
  intros chunks c Hmode Hne Hpartial.
  destruct (feed_partial chunks c Hmode Hne Hpartial)
    as (E & -> & Hw & Hr & Ht & Hn).
  unfold wire. cbn [buf_ log connection_type keepalive_ writeQ in_flight
                    set_log set_buf].
  rewrite writes_of_app, requests_of_app, filter_app, reads_of_app,
    Hw, Hr, Ht, Hn, !app_nil_r.
  repeat split; assumption.
Qed.

Lemma handle_read_same_buffer (n n' : nat) (incoming incoming' b : string)
    (c : connection) :
  (0 < n)%nat -> (0 < n')%nat ->
  (buf_ c ++ substr 0 n incoming)%string = (b ++ substr 0 n' incoming')%string ->
  handle_read success n' incoming' (set_buf b c)
    = handle_read success n incoming c.
Proof.
  intros Hn Hn' Hbuf.
  assert (Hsame : buf_commit n' incoming' (emit ev_timer_cancel (set_buf b c))
                  = buf_commit n incoming (emit ev_timer_cancel c)).
  { unfold buf_commit, set_buf, emit; simpl. now rewrite Hbuf. }
  unfold handle_read.
  replace (0 <? n)%nat with true by (symmetry; apply Nat.ltb_lt; exact Hn).
  replace (0 <? n')%nat with true by (symmetry; apply Nat.ltb_lt; exact Hn').
  change (ec_not success && true) with true. cbv iota.
  rewrite Hsame. reflexivity.
Qed.

(** X8: a request that arrives in several reads is handled like the same
    bytes arriving in one read: the final read leaves the same buffer, mode,
    flags, queue and transport, dispatches the same requests and writes the
    same buffers; the split arrival only adds one read per partial chunk. *)
Theorem split_delivery_matches_single_delivery :
  forall (chunks : list string) (last : string) (c : connection),
    connection_type c = connection_http ->
    Forall (fun chunk => chunk <> "") chunks ->
    last <> "" ->
    (forall seen rest, chunks = seen ++ rest -> seen <> [] ->
       exists req k,
         request_parser_parse (buf_ c ++ joined seen)%string
           = parse_returns tb_indeterminate req k) ->
    let whole := (joined chunks ++ last)%string in
    let one := handle_read success (String.length whole) whole c in
    let split :=
      handle_read success (String.length last) last (feed chunks c) in
    buf_ split = buf_ one /\
    connection_type split = connection_type one /\
    keepalive_ split = keepalive_ one /\
    write_in_progress split = write_in_progress one /\
    write_buffer split = write_buffer one /\
    writeQ split = writeQ one /\
    in_flight split = in_flight one /\
    wire split = wire one /\
    requests_of (log split) = requests_of (log one) /\
    filter is_teardown (log split) = filter is_teardown (log one) /\
    reads_of (log split) = reads_of (log one) + List.length chunks.
Proof.
  intros chunks last c Hmode Hne Hlast Hpartial whole one split.
  destruct (feed_partial chunks c Hmode Hne Hpartial)
    as (E & Hfeed & Hw & Hr & Ht & Hn).
  set (c0 := set_log [] c).
  set (R := handle_read success (String.length whole) whole c0).
  assert (Hone : one = prepend_log (log c) R).
  { unfold one, R. rewrite <- prepend_handle_read. f_equal.
    unfold prepend_log, c0, set_log; simpl. rewrite app_nil_r.
    destruct c; reflexivity. }
  assert (Hsplit : split = prepend_log (log c ++ E) R).
  { unfold split, R. rewrite Hfeed.
    replace (set_log (log c ++ E) (set_buf (buf_ c ++ joined chunks)%string c))
      with (prepend_log (log c ++ E)
              (set_buf (buf_ c ++ joined chunks)%string c0))
      by (unfold prepend_log, c0, set_log, set_buf; simpl;
          now rewrite app_nil_r).
    rewrite prepend_handle_read. f_equal.
    apply handle_read_same_buffer.
    - unfold whole. rewrite string_app_length.
      pose proof (nonempty_length last Hlast). lia.
    - now apply nonempty_length.
    - unfold substr. rewrite !substring_whole. unfold whole, c0. simpl.
      now rewrite string_app_assoc. }
  rewrite Hone, Hsplit. unfold wire.
  cbn [buf_ log connection_type keepalive_ write_in_progress write_buffer
       writeQ in_flight prepend_log set_log].
  rewrite !writes_of_app, !requests_of_app, !filter_app, !reads_of_app,
    Hw, Hr, Ht, Hn. simpl. rewrite !app_nil_r.
  repeat split. lia.
Qed.

(** ** What a decoder consumed leaves the buffer *)

Lemma substring_nothing (n : nat) (s : string) : substring n 0 s = "".
Proof.
  revert n. induction s as [|a s IH]; intros [|n]; simpl; trivial.
Qed.

Lemma buf_consume_front (k : nat) (used rest : string) (c : connection) :
  buf_ c = (used ++ rest)%string -> String.length used = k ->
  buf_ (buf_consume k c) = rest.
Proof.
  intros Hbuf Hk. unfold buf_consume. cbn [buf_ set_buf].
  rewrite Hbuf, string_app_length, Hk.
  replace (Nat.min k (k + String.length rest)) with k by lia.
  subst k. apply substr_from_append.
Qed.

Lemma buf_consume_everything (k : nat) (c : connection) :
  (String.length (buf_ c) <= k)%nat -> buf_ (buf_consume k c) = "".
Proof.
  intros Hk. unfold buf_consume, substr_from. cbn [buf_ set_buf].
  replace (Nat.min k (String.length (buf_ c))) with (String.length (buf_ c))
    by lia.
  rewrite Nat.sub_diag. apply substring_nothing.
Qed.

Lemma MyWrite_buf (buf : string) (c : connection) :
  buf_ (MyWrite buf c) = buf_ c.
Proof.
  unfold MyWrite.
  destruct (connection_type c); destruct (write_in_progress c);
    rewrite ?SocketWrite_effect; reflexivity.
Qed.

Lemma handle_read_framed (n : nat) (incoming : string) (c : connection)
    (r : tribool) (k : nat) (ka : bool) :
  (0 < n)%nat ->
  connection_type c <> connection_http ->
  websocket_parse (buf_ c ++ substr 0 n incoming)%string (keepalive_ c)
    = (r, k, ka) ->
  handle_read success n incoming c =
    let c1 :=
      buf_consume k
        (set_keepalive ka (buf_commit n incoming (emit ev_timer_cancel c))) in
    if tribool_is_true r && negb ka
    then set_connection_type connection_closing c1
    else read_more c1.
Proof.
  intros Hn Hmode Hparse. unfold handle_read.
  replace (0 <? n)%nat with true by (symmetry; apply Nat.ltb_lt; exact Hn).
  change (ec_not success && true) with true. cbv iota.
  change (connection_type (buf_commit n incoming (emit ev_timer_cancel c)))
    with (connection_type c).
  change (buf_ (buf_commit n incoming (emit ev_timer_cancel c)))
    with (buf_ c ++ substr 0 n incoming)%string.
  change (keepalive_ (buf_commit n incoming (emit ev_timer_cancel c)))
    with (keepalive_ c).
  destruct (connection_type c); [congruence| |];
    rewrite Hparse; cbv zeta; cbn [keepalive_ buf_consume set_buf set_keepalive];
    destruct r, ka; reflexivity.
Qed.

(** X9: what the HTTP parser consumed of a complete request leaves the front
    of the read buffer and the bytes behind it stay for the next request; a
    parser that reports more than the buffer holds empties it. *)
Theorem decoded_request_leaves_the_buffer :
  forall (n : nat) (incoming : string) (c : connection) (req : request)
         (k : nat),
    (0 < n)%nat ->
    connection_type c = connection_http ->
    request_parser_parse (buf_ c ++ substr 0 n incoming)%string
      = parse_returns tb_true req k ->
    (forall used rest,
       (buf_ c ++ substr 0 n incoming)%string = (used ++ rest)%string ->
       String.length used = k ->
       buf_ (handle_read success n incoming c) = rest) /\
    ((String.length (buf_ c ++ substr 0 n incoming) <= k)%nat ->
     buf_ (handle_read success n incoming c) = "").
Proof.
  intros n incoming c req k Hn Hmode Hparse.
  rewrite (handle_read_complete n incoming c req k Hn Hmode Hparse).
  cbv zeta.
  match goal with
  | |- (forall used rest, _ -> _ -> buf_ ?x = rest) /\ _ =>
      assert (Hx : buf_ x
                   = buf_ (buf_consume k
                             (buf_commit n incoming (emit ev_timer_cancel c))))
  end.
  { destruct (status _ =? switching_protocols)%Z;
      match goal with
      | |- context [if ?b then _ else _] => destruct b
      end;
      rewrite ?read_more_effect;
      cbn [buf_ emit set_keepalive set_connection_type];
      rewrite MyWrite_buf; reflexivity. }
  rewrite Hx. split.
  - intros used rest Hsplit Hk. now apply (buf_consume_front k used rest).
  - intros Hk. now apply buf_consume_everything.
Qed.

(** X10: in the framed push and closing modes the bytes the frame decoder
    consumed leave the front of the read buffer, the rest stays; the
    keep-alive flag becomes what the decoder left; a complete packet with
    the flag cleared moves the connection to closing without a further
    read or arm of the timer, and every other outcome keeps the mode and
    issues exactly one further read under one further arm of the timer.
    What the decoder sends while it handles a packet is no part of the
    statement. *)
Theorem framed_read_outcome :
  forall (n : nat) (incoming : string) (c : connection) (r : tribool)
         (k : nat) (ka : bool),
    (0 < n)%nat ->
    connection_type c <> connection_http ->
    websocket_parse (buf_ c ++ substr 0 n incoming)%string (keepalive_ c)
      = (r, k, ka) ->
    keepalive_ (handle_read success n incoming c) = ka /\
    (forall used rest,
       (buf_ c ++ substr 0 n incoming)%string = (used ++ rest)%string ->
       String.length used = k ->
       buf_ (handle_read success n incoming c) = rest) /\
    (if tribool_is_true r && negb ka
     then connection_type (handle_read success n incoming c)
            = connection_closing /\
          reads_of (log (handle_read success n incoming c))
            = reads_of (log c) /\
          arms_of (log (handle_read success n incoming c))
            = arms_of (log c)
     else connection_type (handle_read success n incoming c)
            = connection_type c /\
          reads_of (log (handle_read success n incoming c))
            = reads_of (log c) + 1 /\
          arms_of (log (handle_read success n incoming c))
            = arms_of (log c) ++ [timeout_ c]).
Proof.
  intros n incoming c r k ka Hn Hmode Hparse.
  rewrite (handle_read_framed n incoming c r k ka Hn Hmode Hparse).
  cbv zeta.
  destruct (tribool_is_true r && negb ka); rewrite ?read_more_effect;
    cbn [keepalive_ connection_type log emit timeout_ set_connection_type];
    (split; [reflexivity|]);
    (split;
     [ intros used rest Hsplit Hk;
       cbn [buf_ emit set_connection_type];
       now apply (buf_consume_front k used rest)
     | split; [reflexivity|];
       cbn; rewrite <- ?app_assoc, !reads_of_app, !arms_of_app;
       cbn [reads_of arms_of app]; rewrite ?app_nil_r;
       split; [lia | reflexivity] ]).
Qed.

(** X11: a complete HTTP request gets exactly one response, the handler's
    reply to the dispatched request serialised with the request's method: it
    is started at once on an idle transport and queued last behind a write
    in progress. *)
Theorem complete_request_gets_one_response :
  forall (n : nat) (incoming : string) (c : connection) (req : request)
         (k : nat),
    (0 < n)%nat ->
    connection_type c = connection_http ->
    request_parser_parse (buf_ c ++ substr 0 n incoming)%string
      = parse_returns tb_true req k ->
    if write_in_progress c
    then writeQ (handle_read success n incoming c)
           = writeQ c
             ++ [reply_to_string (handle_request (dispatched req c))
                   (method req)] /\
         in_flight (handle_read success n incoming c) = in_flight c /\
         wire (handle_read success n incoming c) = wire c
    else writeQ (handle_read success n incoming c) = writeQ c /\
         in_flight (handle_read success n incoming c)
           = in_flight c
             ++ [reply_to_string (handle_request (dispatched req c))
                   (method req)] /\
         wire (handle_read success n incoming c)
           = wire c
             ++ [reply_to_string (handle_request (dispatched req c))
                   (method req)].
Proof.
  intros n incoming c req k Hn Hmode Hparse.
  rewrite (handle_read_complete n incoming c req k Hn Hmode Hparse).
  cbv zeta.
  match goal with
  | |- context [MyWrite ?b ?x] =>
      assert (Hopen : connection_type x <> connection_closing)
        by (cbn; rewrite Hmode; discriminate);
      assert (Hflag : write_in_progress x = write_in_progress c)
        by reflexivity;
      pose proof (MyWrite_queues b x Hopen) as Hqueue;
      pose proof (MyWrite_starts b x Hopen) as Hstart
  end.
  rewrite Hflag in Hqueue, Hstart.
  destruct (write_in_progress c).
  - rewrite (Hqueue eq_refl).
    destruct (status _ =? switching_protocols)%Z;
      match goal with
      | |- context [if ?b then _ else _] => destruct b
      end;
      rewrite ?read_more_effect; unfold wire;
      cbn [writeQ in_flight log emit set_keepalive set_connection_type
           set_writeQ buf_consume buf_commit set_buf];
      rewrite ?writes_of_app; simpl; rewrite ?app_nil_r; repeat split.
  - rewrite (Hstart eq_refl), SocketWrite_effect.
    destruct (status _ =? switching_protocols)%Z;
      match goal with
      | |- context [if ?b then _ else _] => destruct b
      end;
      rewrite ?read_more_effect; unfold wire;
      cbn [writeQ in_flight log emit set_keepalive set_connection_type
           set_writeQ set_in_flight set_write_buffer set_write_in_progress
           buf_consume buf_commit set_buf];
      rewrite ?writes_of_app; simpl; rewrite ?app_nil_r; repeat split.
Qed.

(** ** One request on an idle connection, to the end of its response *)

(** X12: on an idle HTTP connection a complete request whose response is not
    an upgrade puts that response alone in flight; when its write completes
    successfully, a request that did not ask for keep-alive has the
    transport shut down and the stop requested, and one that asked leaves
    the connection open and quiet. *)
Theorem response_completion_closes_or_keeps_open :
  forall (n : nat) (incoming : string) (c : connection) (req : request)
         (k : nat),
    (0 < n)%nat ->
    connection_type c = connection_http ->
    in_flight c = [] ->
    write_in_progress c = false ->
    writeQ c = [] ->
    request_parser_parse (buf_ c ++ substr 0 n incoming)%string
      = parse_returns tb_true req k ->
    status (handle_request (dispatched req c)) <> switching_protocols ->
    in_flight (handle_read success n incoming c)
      = [reply_to_string (handle_request (dispatched req c)) (method req)] /\
    exists c2,
      complete_write success (handle_read success n incoming c) = Some c2 /\
      write_in_progress c2 = false /\
      in_flight c2 = [] /\
      connection_type c2 = connection_http /\
      log c2 = log (handle_read success n incoming c)
               ++ (if asks_keep_alive req then []
                   else [ev_socket_shutdown; ev_manager_stop]).
Proof.
  intros n incoming c req k Hn Hmode Hfl Hw Hq Hparse Hstatus.
  pose proof (dispatched_keep_alive req c) as Hflag.
  rewrite (handle_read_complete n incoming c req k Hn Hmode Hparse).
  cbv zeta. apply Z.eqb_neq in Hstatus. rewrite Hstatus.
  match goal with
  | |- context [MyWrite ?b ?x] =>
      assert (Hopen : connection_type x <> connection_closing)
        by (cbn; rewrite Hmode; discriminate);
      rewrite (MyWrite_starts b x Hopen Hw), SocketWrite_effect
  end.
  fields. rewrite Hflag.
  destruct (asks_keep_alive req); rewrite ?read_more_effect;
    unfold complete_write; fields; rewrite Hfl;
    (split; [reflexivity|]); cbn [app];
    eexists; (split; [reflexivity|]);
    unfold handle_write; change (ec_not success) with true; cbv iota;
    fields; rewrite Hq; cbn [negb]; cbv iota; fields;
    rewrite ?app_nil_r, ?Hmode, <- ?app_assoc; repeat split.
Qed.

End Lifecycle.

(** * The GPIO driver *)

Section GpioProperties.

Variable long_bits : Z.
Hypothesis long_is_wide : (32 <= long_bits)%Z.

Lemma wrap_signed_small (bits z : Z) :
  (0 < bits)%Z ->
  (- 2 ^ (bits - 1) <= z < 2 ^ (bits - 1))%Z ->
  wrap_signed bits z = z.
Proof.
  intros Hbits Hz. unfold wrap_signed.
  assert (Hpow : (2 ^ bits = 2 * 2 ^ (bits - 1))%Z).
  { replace bits with (Z.succ (bits - 1)) at 1 by lia.
    apply Z.pow_succ_r. lia. }
  rewrite Z.mod_small; lia.
Qed.

Lemma to_int_small (z : Z) :
  (- 2147483648 <= z < 2147483648)%Z -> to_int z = z.
Proof.
  intros Hz. unfold to_int. apply wrap_signed_small; [lia|].
  change (2 ^ (32 - 1))%Z with 2147483648%Z. exact Hz.
Qed.

Lemma to_long_small (z : Z) :
  (- 2147483648 <= z < 2147483648)%Z -> to_long long_bits z = z.
Proof.
  intros Hz. unfold to_long. apply wrap_signed_small; [lia|].
  assert (Hpow : (2 ^ 31 <= 2 ^ (long_bits - 1))%Z)
    by (apply Z.pow_le_mono_r; lia).
  change (2 ^ 31)%Z with 2147483648%Z in Hpow. lia.
Qed.

Lemma to_uint_small (z : Z) :
  (0 <= z < 4294967296)%Z -> to_uint z = z.
Proof. intros Hz. unfold to_uint. apply Z.mod_small. exact Hz. Qed.

Lemma timeval_subtract_spec :
  forall x y : timeval,
    normalised x -> normalised y ->
    micros (snd (fst (timeval_subtract long_bits x y))) = (micros x - micros y)%Z /\
    (0 <= tv_usec (snd (fst (timeval_subtract long_bits x y))) < 1000000)%Z /\
    fst (fst (timeval_subtract long_bits x y))
      = (if (micros x <? micros y)%Z then 1 else 0)%Z /\
    micros (snd (timeval_subtract long_bits x y)) = micros y.
Proof.
  intros [sx ux] [sy uy] [Hsx Hux] [Hsy Huy].
  cbn [tv_sec tv_usec] in Hsx, Hux, Hsy, Huy.
  change (2 ^ 30)%Z with 1073741824%Z in *.
  unfold timeval_subtract, micros. cbn [tv_sec tv_usec].
  destruct (ux <? uy)%Z eqn:Hlt.
  - apply Z.ltb_lt in Hlt. cbn [tv_sec tv_usec].
    rewrite (to_long_small (uy - ux)) by lia.
    rewrite (Z.quot_small (uy - ux) 1000000) by lia.
    rewrite (to_long_small (0 + 1)) by lia.
    rewrite (to_int_small (0 + 1)) by lia.
    rewrite (to_int_small (1000000 * (0 + 1))) by lia.
    cbn [tv_sec tv_usec].
    rewrite (to_long_small (uy - 1000000 * (0 + 1))) by lia.
    rewrite (to_long_small (sy + (0 + 1))) by lia.
    rewrite (to_long_small (ux - (uy - 1000000 * (0 + 1)))) by lia.
    replace (ux - (uy - 1000000 * (0 + 1)) >? 1000000)%Z with false
      by (symmetry; rewrite Z.gtb_ltb; apply Z.ltb_ge; lia).
    cbn [tv_sec tv_usec fst snd].
    rewrite (to_long_small (sx - (sy + (0 + 1)))) by lia.
    rewrite (to_long_small (ux - (uy - 1000000 * (0 + 1)))) by lia.
    repeat split; try lia.
    destruct (sx <? sy + (0 + 1))%Z eqn:H1;
      destruct (sx * 1000000 + ux <? sy * 1000000 + uy)%Z eqn:H2;
      trivial; rewrite ?Z.ltb_lt, ?Z.ltb_ge in *; lia.
  - apply Z.ltb_ge in Hlt. cbn [tv_sec tv_usec].
    rewrite (to_long_small (ux - uy)) by lia.
    replace (ux - uy >? 1000000)%Z with false
      by (symmetry; rewrite Z.gtb_ltb; apply Z.ltb_ge; lia).
    cbn [tv_sec tv_usec fst snd].
    rewrite (to_long_small (sx - sy)) by lia.
    rewrite ?(to_long_small (ux - uy)) by lia.
    repeat split; try lia.
    destruct (sx <? sy)%Z eqn:H1;
      destruct (sx * 1000000 + ux <? sy * 1000000 + uy)%Z eqn:H2;
      trivial; rewrite ?Z.ltb_lt, ?Z.ltb_ge in *; lia.
Qed.

(** X13: for two clock readings [timeval_subtract] stores their exact
    difference with a microsecond part of at least zero and below a million,
    returns 1 exactly when the first reading is the earlier one, and leaves
    in [*y] a value that denotes the same instant as before. *)
Theorem timeval_subtract_normalised :
  forall x y : timeval,
    normalised x -> normalised y ->
    micros (snd (fst (timeval_subtract long_bits x y)))
      = (micros x - micros y)%Z /\
    (0 <= tv_usec (snd (fst (timeval_subtract long_bits x y))) < 1000000)%Z /\
    fst (fst (timeval_subtract long_bits x y))
      = (if (micros x <? micros y)%Z then 1 else 0)%Z /\
    micros (snd (timeval_subtract long_bits x y)) = micros y.
Proof. exact timeval_subtract_spec. Qed.

Lemma store_same {A : Type} (a : Z -> A) (i : Z) (v : A) : store a i v i = v.
Proof. unfold store. now rewrite Z.eqb_refl. Qed.

Lemma store_other {A : Type} (a : Z -> A) (i j : Z) (v : A) :
  j <> i -> store a i v j = a j.
Proof. intros Hj. unfold store. apply Z.eqb_neq in Hj. now rewrite Hj. Qed.

(** The elapsed time [pushInterrupt] compares with the period. *)
Lemma elapsed_microseconds (x y : timeval) :
  normalised x -> normalised y ->
  (micros x - micros y < 2147483648)%Z ->
  forall negative difference begun,
    timeval_subtract long_bits x y = (negative, difference, begun) ->
    to_uint
      (to_long long_bits
         (tv_usec (if (negative =? 0)%Z then difference else mk_timeval 0 0)
          + to_long long_bits
              (tv_sec (if (negative =? 0)%Z then difference
                       else mk_timeval 0 0) * 1000000)))
    = Z.max 0 (micros x - micros y).
Proof.
  intros Hx Hy Hfit negative difference begun Hsub.
  destruct (timeval_subtract_spec x y Hx Hy) as (Hdiff & Husec & Hneg & _).
  rewrite Hsub in Hdiff, Husec, Hneg. cbn [fst snd] in Hdiff, Husec, Hneg.
  unfold micros in *. subst negative.
  destruct (tv_sec x * 1000000 + tv_usec x <? tv_sec y * 1000000 + tv_usec y)%Z
    eqn:Hlt.
  - apply Z.ltb_lt in Hlt. cbn [Z.eqb tv_sec tv_usec].
    rewrite (to_long_small (0 * 1000000)) by lia.
    rewrite (to_long_small (0 + 0 * 1000000)) by lia.
    rewrite to_uint_small by lia. lia.
  - apply Z.ltb_ge in Hlt. cbn [Z.eqb].
    rewrite (to_long_small (tv_sec difference * 1000000)) by lia.
    rewrite (to_long_small (tv_usec difference + tv_sec difference * 1000000))
      by lia.
    rewrite to_uint_small by lia. lia.
Qed.

(** X14: an interrupt restarts the pin's stopwatch, and it is queued only
    when the microseconds passed since the pin's stopwatch was last started
    exceed [m_period * 1000] as an [unsigned int], that is taken modulo
    2^32: then the pin is marked quiet and joins the back of the queue
    unless it is waiting there already; an interrupt that comes sooner - or
    with a clock reading earlier than the start - is dropped and marks the
    pin as busy.  The threshold is [m_period] milliseconds as long as
    [m_period] is at most 4294967; a longer period wraps around. *)
Theorem interrupt_is_queued_after_the_period :
  forall (gpioId : Z) (now_end now_begin : timeval) (s : interrupts),
    normalised now_end ->
    normalised (tvBegin s gpioId) ->
    (micros now_end - micros (tvBegin s gpioId) < 2147483648)%Z ->
    tvBegin (pushInterrupt long_bits gpioId now_end now_begin s) gpioId
      = now_begin /\
    ((0 <= m_period s <= 4294967)%Z ->
     to_uint (m_period s * 1000) = (m_period s * 1000)%Z) /\
    if (to_uint (m_period s * 1000)
          <? micros now_end - micros (tvBegin s gpioId))%Z
    then
      interruptHigh (pushInterrupt long_bits gpioId now_end now_begin s)
        gpioId = false /\
      gpioInterruptQueue (pushInterrupt long_bits gpioId now_end now_begin s)
        = (if queued gpioId (gpioInterruptQueue s)
           then gpioInterruptQueue s
           else gpioInterruptQueue s ++ [gpioId])
    else
      interruptHigh (pushInterrupt long_bits gpioId now_end now_begin s)
        gpioId = true /\
      gpioInterruptQueue (pushInterrupt long_bits gpioId now_end now_begin s)
        = gpioInterruptQueue s.
Proof.
  intros gpioId now_end now_begin s Hend Hbegin Hfit.
  assert (Hfits : (0 <= m_period s <= 4294967)%Z ->
                  to_uint (m_period s * 1000) = (m_period s * 1000)%Z)
    by (intros Hsmall; apply to_uint_small; lia).
  unfold pushInterrupt. rewrite (store_same (tvEnd s) gpioId now_end).
  destruct (timeval_subtract long_bits now_end (tvBegin s gpioId))
    as [[negative difference] begun] eqn:Hsub.
  rewrite (store_same (tvDiff s) gpioId).
  rewrite (elapsed_microseconds now_end (tvBegin s gpioId) Hend Hbegin Hfit
             negative difference begun Hsub).
  assert (Hperiod : (0 <= to_uint (m_period s * 1000))%Z)
    by (unfold to_uint; apply Z.mod_pos_bound; lia).
  rewrite Z.gtb_ltb.
  replace (to_uint (m_period s * 1000)
             <? Z.max 0 (micros now_end - micros (tvBegin s gpioId)))%Z
    with (to_uint (m_period s * 1000)
            <? micros now_end - micros (tvBegin s gpioId))%Z
    by (destruct (Z.ltb_spec (to_uint (m_period s * 1000))
                    (micros now_end - micros (tvBegin s gpioId)));
        symmetry; [apply Z.ltb_lt | apply Z.ltb_ge]; lia).
  destruct (to_uint (m_period s * 1000)
              <? micros now_end - micros (tvBegin s gpioId))%Z.
  - destruct (queued gpioId (gpioInterruptQueue s));
      cbn [tvBegin interruptHigh gpioInterruptQueue];
      rewrite !store_same; (split; [reflexivity|]);
      (split; [exact Hfits|]); split; reflexivity.
  - cbn [tvBegin interruptHigh gpioInterruptQueue].
    rewrite store_same. split; [reflexivity|]. split; [exact Hfits|].
    split; [|reflexivity].
    destruct (interruptHigh s gpioId) eqn:Hhigh; cbn [negb];
      [exact Hhigh | apply store_same].
Qed.

(** ** The interrupt queue *)

Lemma queued_false (gpioId : Z) (queue : list Z) :
  queued gpioId queue = false -> ~ In gpioId queue.
Proof.
  unfold queued. intros Hq Hin.
  assert (Hex : existsb (Z.eqb gpioId) queue = true).
  { apply existsb_exists. exists gpioId. split; [exact Hin|].
    apply Z.eqb_refl. }
  congruence.
Qed.

Lemma pushInterrupt_queue (gpioId : Z) (now_end now_begin : timeval)
    (s : interrupts) :
  gpioInterruptQueue (pushInterrupt long_bits gpioId now_end now_begin s)
    = gpioInterruptQueue s \/
  (~ In gpioId (gpioInterruptQueue s) /\
   gpioInterruptQueue (pushInterrupt long_bits gpioId now_end now_begin s)
     = gpioInterruptQueue s ++ [gpioId]).
Proof.
  unfold pushInterrupt.
  destruct (timeval_subtract _ _ _) as [[negative difference] begun].
  match goal with
  | |- context [if (?a >? ?b)%Z then _ else _] => destruct (a >? b)%Z
  end; [|left; reflexivity].
  destruct (queued gpioId (gpioInterruptQueue s)) eqn:Hq;
    [left; reflexivity|].
  right. split; [now apply queued_false | reflexivity].
Qed.

Lemma acknowledge_empties (queue triggers : list Z) :
  acknowledge queue triggers = ([], triggers ++ queue).
Proof.
  revert triggers. induction queue as [|front rest IH]; intros triggers; simpl.
  - now rewrite app_nil_r.
  - now rewrite IH, <- app_assoc.
Qed.

Lemma handled_pins_fit (queue : list Z) :
  NoDup queue ->
  Forall (fun gpioId => (0 <= gpioId <= MAX_GPIO)%Z) queue ->
  (List.length queue <= 32)%nat.
Proof.
  intros Hnd Hall.
  change 32%nat with (List.length (map Z.of_nat (seq 0 32))).
  apply NoDup_incl_length; [exact Hnd|].
  intros gpioId Hin. rewrite Forall_forall in Hall.
  specialize (Hall gpioId Hin). unfold MAX_GPIO in Hall.
  replace gpioId with (Z.of_nat (Z.to_nat gpioId)) by lia.
  apply in_map, in_seq. lia.
Qed.

(** X15: the interrupt queue holds every pin at most once, whatever
    interrupts arrive and whenever the worker acknowledges them; with the
    pins the handlers exist for it never holds more than thirty-two
    entries, and the worker's acknowledgement hands the queued pins on in
    queue order and leaves the queue empty. *)
Theorem interrupt_queue_never_overflows :
  forall (calls : list gpio_call) (s : interrupts),
    NoDup (gpioInterruptQueue s) ->
    Forall (fun gpioId => (0 <= gpioId <= MAX_GPIO)%Z)
      (gpioInterruptQueue s) ->
    Forall handled_pin calls ->
    NoDup (gpioInterruptQueue (gpio_run long_bits calls s)) /\
    Forall (fun gpioId => (0 <= gpioId <= MAX_GPIO)%Z)
      (gpioInterruptQueue (gpio_run long_bits calls s)) /\
    (List.length (gpioInterruptQueue (gpio_run long_bits calls s)) <= 32)%nat /\
    (forall triggers,
       acknowledge (gpioInterruptQueue (gpio_run long_bits calls s)) triggers
         = ([], triggers
                  ++ gpioInterruptQueue (gpio_run long_bits calls s))).
Proof.
  intros calls s Hnd Hall Hcalls.
  assert (Hinv : NoDup (gpioInterruptQueue (gpio_run long_bits calls s)) /\
                 Forall (fun gpioId => (0 <= gpioId <= MAX_GPIO)%Z)
                   (gpioInterruptQueue (gpio_run long_bits calls s))).
  { revert s Hnd Hall. induction Hcalls as [|k calls Hk Hcalls IH];
      intros s Hnd Hall; [split; assumption|].
    unfold gpio_run. simpl fold_left. apply IH.
    - destruct k as [gpioId now_end now_begin|]; simpl.
      + destruct (pushInterrupt_queue gpioId now_end now_begin s)
          as [-> | [Hnew ->]]; [exact Hnd|].
        apply NoDup_app; [exact Hnd | repeat constructor; intros [] | ].
        intros x Hx [<- | []]. contradiction.
      + rewrite acknowledge_empties. constructor.
    - destruct k as [gpioId now_end now_begin|]; simpl.
      + destruct (pushInterrupt_queue gpioId now_end now_begin s)
          as [-> | [Hnew ->]]; [exact Hall|].
        apply Forall_app. split; [exact Hall|]. repeat constructor; apply Hk.
      + rewrite acknowledge_empties. constructor. }
  destruct Hinv as [Hnd' Hall'].
  split; [exact Hnd'|]. split; [exact Hall'|].
  split; [now apply handled_pins_fit|].
  intros triggers. apply acknowledge_empties.
Qed.


(** ** Gaps longer than the counter *)

Lemma to_long_small_64 (z : Z) :
  (64 <= long_bits)%Z ->
  (- 9223372036854775808 <= z < 9223372036854775808)%Z ->
  to_long long_bits z = z.
Proof.
  intros Hwide Hz. unfold to_long. apply wrap_signed_small; [lia|].
  assert (Hpow : (2 ^ 63 <= 2 ^ (long_bits - 1))%Z)
    by (apply Z.pow_le_mono_r; lia).
  change (2 ^ 63)%Z with 9223372036854775808%Z in Hpow. lia.
Qed.

(** X16: with a [long] of at least 64 bits the time since the pin's
    stopwatch was started is compared with the period only after it is cut
    down to 32 bits: an interrupt is queued exactly when that time, taken
    modulo 2^32 microseconds, exceeds the period, so an interrupt arriving a
    little more than 2^32 microseconds after the previous one is dropped. *)
Theorem long_gaps_wrap_around :
  forall (gpioId : Z) (now_end now_begin : timeval) (s : interrupts),
    (64 <= long_bits)%Z ->
    normalised now_end ->
    normalised (tvBegin s gpioId) ->
    (micros (tvBegin s gpioId) <= micros now_end)%Z ->
    gpioInterruptQueue (pushInterrupt long_bits gpioId now_end now_begin s)
      = if (to_uint (m_period s * 1000)
              <? (micros now_end - micros (tvBegin s gpioId)) mod 2 ^ 32)%Z
        then (if queued gpioId (gpioInterruptQueue s)
              then gpioInterruptQueue s
              else gpioInterruptQueue s ++ [gpioId])
        else gpioInterruptQueue s.
Proof.
  intros gpioId now_end now_begin s Hwide Hend Hbegin Horder.
  unfold pushInterrupt. rewrite (store_same (tvEnd s) gpioId now_end).
  destruct (timeval_subtract_spec now_end (tvBegin s gpioId) Hend Hbegin)
    as (Hdiff & Husec & Hneg & _).
  destruct (timeval_subtract long_bits now_end (tvBegin s gpioId))
    as [[negative difference] begun] eqn:Hsub.
  cbn [fst snd] in Hdiff, Husec, Hneg.
  rewrite (store_same (tvDiff s) gpioId).
  replace (micros now_end <? micros (tvBegin s gpioId))%Z with false in Hneg
    by (symmetry; apply Z.ltb_ge; exact Horder).
  subst negative. cbn [Z.eqb].
  destruct Hend as [Hes Heu]. destruct Hbegin as [Hbs Hbu].
  change (2 ^ 30)%Z with 1073741824%Z in *.
  unfold micros in *.
  rewrite (to_long_small_64 (tv_sec difference * 1000000)) by lia.
  rewrite (to_long_small_64
             (tv_usec difference + tv_sec difference * 1000000)) by lia.
  replace (tv_usec difference + tv_sec difference * 1000000)%Z
    with (tv_sec now_end * 1000000 + tv_usec now_end
          - (tv_sec (tvBegin s gpioId) * 1000000
             + tv_usec (tvBegin s gpioId)))%Z by lia.
  unfold to_uint at 1. rewrite Z.gtb_ltb.
  match goal with
  | |- context [if (?a <? ?b)%Z then _ else _] => destruct (a <? b)%Z
  end; [|reflexivity].
  destruct (queued gpioId (gpioInterruptQueue s)); reflexivity.
Qed.

End GpioProperties.

Section StatusProperties.

Context {externals : Externals}.

Lemma sent_app (l1 l2 : list hardware_event) :
  sent (l1 ++ l2) = sent l1 ++ sent l2.
Proof.
  induction l1 as [|e l1 IH]; simpl; [reflexivity|].
  destruct e; simpl; rewrite ?IH; reflexivity.
Qed.

Lemma to_uchar_succ (n : Z) : to_uchar (to_uchar n + 1) = to_uchar (n + 1).
Proof. unfold to_uchar. apply Zplus_mod_idemp_l. Qed.

(** One call: either silent, or exactly one packet with the next number. *)
Lemma status_perform_effect (k : status_call) (g : CGpio) (n : nat) :
  prepared (IOPinStatusPacket g) ->
  seqnbr (IOPinStatusPacket g) = to_uchar (Z.of_nat n) ->
  (reports k = false /\
   sent (hardware_log (status_perform k g)) = sent (hardware_log g) /\
   IOPinStatusPacket (status_perform k g) = IOPinStatusPacket g) \/
  (reports k = true /\
   exists p,
     sent (hardware_log (status_perform k g)) = sent (hardware_log g) ++ [p] /\
     IOPinStatusPacket (status_perform k g) = p /\
     prepared p /\
     seqnbr p = to_uchar (Z.of_nat (S n)) /\
     (unitcode p, cmnd p) = reported k).
Proof.
  intros Hprep Hseq.
  assert (Hreport : forall gpioId value g0,
            IOPinStatusPacket g0 = IOPinStatusPacket g ->
            exists p,
              sent (hardware_log (report gpioId value g0))
                = sent (hardware_log g0) ++ [p] /\
              IOPinStatusPacket (report gpioId value g0) = p /\
              prepared p /\
              seqnbr p = to_uchar (Z.of_nat (S n)) /\
              (unitcode p, cmnd p)
                = (to_uchar gpioId,
                   if (value =? 0)%Z then to_uchar light1_sOff
                   else to_uchar light1_sOn)).
  { intros gpioId value g0 Hsame. unfold report. rewrite Hsame.
    eexists. split; [|split; [reflexivity|]].
    - unfold hardware, set_packet; simpl. rewrite sent_app. reflexivity.
    - destruct Hprep as (H1 & H2 & H3 & H4 & H5).
      destruct (value =? 0)%Z;
        cbn [negb packetlength packettype subtype seqnbr housecode unitcode
             cmnd rssi prepared IOPinStatusPacket hardware set_packet];
        (split; [repeat split; assumption|]);
        (split; [|reflexivity]);
        rewrite Hseq, to_uchar_succ; f_equal; lia. }
  destruct k as [gpioId result value | gpioId forceUpdate state result];
    cbn [status_perform reports reported].
  - unfold ProcessInterrupt. destruct (has_rows result); cbv iota zeta.
    + right. split; [reflexivity|].
      destruct (Hreport gpioId value
                  (hardware (ev_digitalRead gpioId)
                     (hardware (ev_safe_query (m_HwdID g) gpioId) g))
                  eq_refl) as (p & Hs & Hp & Hrest).
      exists p. split; [|split; assumption].
      rewrite Hs. unfold hardware; simpl. rewrite !sent_app. simpl.
      now rewrite !app_nil_r.
    + left. split; [reflexivity|]. unfold hardware; simpl.
      rewrite sent_app. simpl. now rewrite app_nil_r.
  - unfold UpdateState. destruct (has_rows result); cbv iota zeta.
    + destruct (negb (atoi (nth 1 (nth 0 result []) "") =? state)%Z
                || forceUpdate); cbv iota.
      * right. split; [reflexivity|].
        destruct (Hreport gpioId state
                    (hardware
                       (ev_safe_query
                          (m_HwdID (hardware (ev_digitalRead gpioId) g))
                          gpioId)
                       (hardware (ev_digitalRead gpioId) g))
                    eq_refl) as (p & Hs & Hp & Hrest).
        exists p. split; [|split; assumption].
        rewrite Hs. unfold hardware; simpl. rewrite !sent_app. simpl.
        now rewrite !app_nil_r.
      * left. split; [reflexivity|]. unfold hardware; simpl.
        rewrite !sent_app. simpl. now rewrite !app_nil_r.
    + left. split; [reflexivity|]. unfold hardware; simpl.
      rewrite !sent_app. simpl. now rewrite !app_nil_r.
Qed.

Lemma status_run_cons (k : status_call) (calls : list status_call)
    (g : CGpio) :
  status_run (k :: calls) g = status_run calls (status_perform k g).
Proof. reflexivity. Qed.

Lemma status_run_stream (calls : list status_call) :
  forall (g : CGpio) (n : nat),
    prepared (IOPinStatusPacket g) ->
    seqnbr (IOPinStatusPacket g) = to_uchar (Z.of_nat n) ->
    exists new,
      sent (hardware_log (status_run calls g))
        = sent (hardware_log g) ++ new /\
      map (fun p => (unitcode p, cmnd p)) new
        = map reported (filter reports calls) /\
      map seqnbr new
        = map (fun k => to_uchar (Z.of_nat k))
            (seq (S n) (List.length (filter reports calls))) /\
      Forall prepared new.
Proof.
  induction calls as [|k calls IH]; intros g n Hprep Hseq.
  - exists []. simpl. rewrite app_nil_r. repeat split. constructor.
  - rewrite status_run_cons.
    destruct (status_perform_effect k g n Hprep Hseq)
      as [(Hk & Hsent & Hpacket) | (Hk & p & Hsent & Hpacket & Hp & Hpseq & Hrep)].
    + destruct (IH (status_perform k g) n) as (new & Hnew & Hrest);
        [now rewrite Hpacket | now rewrite Hpacket |].
      exists new. simpl filter. rewrite Hk, Hnew, Hsent. auto.
    + destruct (IH (status_perform k g) (S n))
        as (new & Hnew & Hpairs & Hseqs & Hall);
        [now rewrite Hpacket | now rewrite Hpacket |].
      exists (p :: new). simpl filter. rewrite Hk, Hnew, Hsent.
      split; [now rewrite <- app_assoc|].
      simpl. rewrite Hpairs, Hseqs, Hrep, Hpseq.
      repeat split. now constructor.
Qed.

Lemma new_CGpio_prepared (ID : Z) (raw : lighting1) :
  prepared (IOPinStatusPacket (new_CGpio ID raw)) /\
  seqnbr (IOPinStatusPacket (new_CGpio ID raw)) = to_uchar (Z.of_nat 0).
Proof. repeat split. Qed.

(** X17: the status packets a [CGpio] object hands on follow its calls one
    for one: a call without a device row - or, for [UpdateState], with the
    stored state equal to the pin's and no forced update - sends nothing;
    every other call sends one packet with the pin as unit, the on or off
    command for the level read, the header the constructor prepared, and a
    sequence number that counts the packets sent so far modulo 256. *)
Theorem status_packets_follow_the_calls :
  forall (calls : list status_call) (ID : Z) (raw : lighting1),
    map (fun p => (unitcode p, cmnd p))
      (sent (hardware_log (status_run calls (new_CGpio ID raw))))
      = map reported (filter reports calls) /\
    map seqnbr (sent (hardware_log (status_run calls (new_CGpio ID raw))))
      = map (fun k => to_uchar (Z.of_nat k))
          (seq 1 (List.length (filter reports calls))) /\
    Forall prepared
      (sent (hardware_log (status_run calls (new_CGpio ID raw)))).
Proof.
  intros calls ID raw.
  destruct (new_CGpio_prepared ID raw) as [Hprep Hseq].
  destruct (status_run_stream calls (new_CGpio ID raw) 0 Hprep Hseq)
    as (new & -> & Hpairs & Hseqs & Hall).
  simpl. auto.
Qed.

(** X18: when the packet type and subtype constants fit a byte, every
    status packet the object hands on is a command [WriteToHardware]
    accepts: given back to it, the packet makes it read the pin named as
    unit and write the packet's command to that pin. *)
Theorem status_packet_is_an_accepted_command :
  forall (calls : list status_call) (ID : Z) (raw : lighting1)
         (p : lighting1) (oldValue : Z) (g : CGpio),
    (0 <= pTypeLighting1 < 256)%Z ->
    (0 <= sTypeIMPULS < 256)%Z ->
    In p (sent (hardware_log (status_run calls (new_CGpio ID raw)))) ->
    WriteToHardware p oldValue g
      = (true,
         hardware (ev_digitalWrite (unitcode p) (cmnd p))
           (hardware (ev_digitalRead (unitcode p)) g)).
Proof.
  intros calls ID raw p oldValue g Hbyte1 Hbyte2 Hin.
  destruct (new_CGpio_prepared ID raw) as [Hprep Hseq].
  destruct (status_run_stream calls (new_CGpio ID raw) 0 Hprep Hseq)
    as (new & Hsent & _ & _ & Hall).
  rewrite Hsent in Hin. simpl in Hin.
  rewrite Forall_forall in Hall.
  destruct (Hall p Hin) as (_ & Htype & Hsub & Hhouse & _).
  unfold WriteToHardware. rewrite Htype, Hsub, Hhouse.
  unfold to_uchar. rewrite !Z.mod_small by assumption.
  now rewrite !Z.eqb_refl.
Qed.

(** And a packet of another type, subtype or house code is refused without
    touching a pin. *)
Lemma foreign_packet_is_refused (p : lighting1) (oldValue : Z) (g : CGpio) :
  packettype p <> pTypeLighting1 \/ subtype p <> sTypeIMPULS
  \/ housecode p <> 0%Z ->
  WriteToHardware p oldValue g = (false, g).
Proof.
  intros Hforeign. unfold WriteToHardware.
  destruct (packettype p =? pTypeLighting1)%Z eqn:Ht;
    destruct (subtype p =? sTypeIMPULS)%Z eqn:Hs;
    destruct (housecode p =? 0)%Z eqn:Hh; trivial.
  apply Z.eqb_eq in Ht, Hs, Hh. tauto.
Qed.

End StatusProperties.

(** * The worker and the pin list *)

Section WorkerProperties.

Context {externals : Externals}.

Lemma acknowledge_all (queue triggers : list Z) :
  acknowledge queue triggers = ([], triggers ++ queue).
Proof.
  revert triggers. induction queue as [|q queue IH]; intros triggers; simpl.
  - now rewrite app_nil_r.
  - rewrite IH, <- app_assoc. reflexivity.
Qed.

Lemma process_triggers_run (triggers : list Z) :
  forall (readings : list (list (list string) * Z)) (g : CGpio),
    List.length readings = List.length triggers ->
    process_triggers triggers readings g
      = ([], status_run (round_calls triggers readings) g).
Proof.
  induction triggers as [|t triggers IH]; intros [|[result value] readings] g;
    simpl; try discriminate; [reflexivity|].
  intros [= Hlen]. rewrite (IH readings _ Hlen). reflexivity.
Qed.

Lemma queries_app (l1 l2 : list hardware_event) :
  queries (l1 ++ l2) = queries l1 ++ queries l2.
Proof.
  induction l1 as [|e l1 IH]; simpl; [reflexivity|].
  destruct e; simpl; rewrite ?IH; reflexivity.
Qed.

Lemma status_perform_keeps_ID (k : status_call) (g : CGpio) :
  m_HwdID (status_perform k g) = m_HwdID g.
Proof.
  destruct k as [gpioId result value | gpioId forceUpdate state result];
    cbn [status_perform].
  - unfold ProcessInterrupt.
    destruct (has_rows result); reflexivity.
  - unfold UpdateState.
    destruct (has_rows result); cbv iota zeta; [|reflexivity].
    destruct (negb _ || forceUpdate); reflexivity.
Qed.

Lemma ProcessInterrupt_queries (gpioId : Z) (result : list (list string))
    (value : Z) (g : CGpio) :
  queries (hardware_log (ProcessInterrupt gpioId result value g))
    = queries (hardware_log g) ++ [(m_HwdID g, gpioId)].
Proof.
  unfold ProcessInterrupt, report, hardware, set_packet.
  destruct (has_rows result); simpl; rewrite ?queries_app; simpl;
    rewrite ?queries_app; simpl; now rewrite ?app_nil_r.
Qed.

Lemma round_queries (queue : list Z) :
  forall (readings : list (list (list string) * Z)) (g : CGpio),
    List.length readings = List.length queue ->
    queries (hardware_log (status_run (round_calls queue readings) g))
      = queries (hardware_log g) ++ map (fun q => (m_HwdID g, q)) queue.
Proof.
  induction queue as [|q queue IH]; intros [|[result value] readings] g;
    simpl; try discriminate.
  - intros _. now rewrite app_nil_r.
  - intros [= Hlen]. unfold round_calls in IH.
    change (status_run (?k :: ?calls) g)
      with (status_run calls (status_perform k g)).
    cbn [fst snd status_perform].
    assert (Hid : m_HwdID (ProcessInterrupt q result value g) = m_HwdID g)
      by apply (status_perform_keeps_ID (process_interrupt q result value)).
    rewrite (IH readings _ Hlen), ProcessInterrupt_queries, <- app_assoc, Hid.
    reflexivity.
Qed.

(** X19: in a round of the worker that finds the condition signalled, with
    one reading at hand for every queued interrupt, the queue is emptied,
    no trigger is left over, and [ProcessInterrupt] runs once for every pin
    that was queued, in the order of the queue: the round is the run of
    these calls, and it queries the device table for these pins in that
    order. *)
Theorem worker_round_processes_the_queue_in_order :
  forall (readings : list (list (list string) * Z)) (s : interrupts)
         (g : CGpio),
    List.length readings = List.length (gpioInterruptQueue s) ->
    gpioInterruptQueue (fst (fst (Do_Work_round readings s g))) = [] /\
    snd (fst (Do_Work_round readings s g)) = [] /\
    snd (Do_Work_round readings s g)
      = status_run (round_calls (gpioInterruptQueue s) readings) g /\
    queries (hardware_log (snd (Do_Work_round readings s g)))
      = queries (hardware_log g)
        ++ map (fun q => (m_HwdID g, q)) (gpioInterruptQueue s).
Proof.
  intros readings s g Hlen. unfold Do_Work_round.
  rewrite acknowledge_all. cbn [app].
  rewrite (process_triggers_run _ readings g Hlen). cbn [fst snd].
  repeat split; trivial. cbn [gpioInterruptQueue].
  now apply round_queries.
Qed.

End WorkerProperties.

Section PinProperties.

Context {externals : Externals}.

Lemma mode_is_exclusive (mode : string) :
  String.eqb mode "IN" && String.eqb mode "OUT" = false.
Proof.
  destruct (String.eqb mode "IN") eqn:Hin; [|reflexivity].
  apply String.eqb_eq in Hin. subst mode. reflexivity.
Qed.

Lemma push_pin_well_found (export_lines : list (list string))
    (fields : list string) (number name phys mode : nat)
    (pins : list CGpioPin) :
  Forall (well_found export_lines) pins ->
  Forall (well_found export_lines)
    (push_pin (exported export_lines) fields number name phys mode pins).
Proof.
  intros Hpins. unfold push_pin.
  destruct ((0 <=? atoi (nth number fields ""))%Z
            && (atoi (nth number fields "") <=? MAX_GPIO)%Z) eqn:Hrange;
    [|exact Hpins].
  apply andb_true_iff in Hrange as [Hlo Hhi].
  apply Z.leb_le in Hlo, Hhi.
  apply Forall_app. split; [exact Hpins|].
  constructor; [|constructor].
  unfold well_found; cbn [GetId GetIsExported GetIsInput GetIsOutput].
  repeat split; trivial. apply mode_is_exclusive.
Qed.

Lemma read_line_well_found (export_lines : list (list string))
    (pins : list CGpioPin) (fields : list string) :
  Forall (well_found export_lines) pins ->
  Forall (well_found export_lines)
    (read_line (exported export_lines) pins fields).
Proof.
  intros Hpins. unfold read_line.
  destruct (List.length fields <? 7)%nat; [exact Hpins|].
  destruct (List.length fields =? 7)%nat.
  - destruct (negb _); [now apply push_pin_well_found | exact Hpins].
  - destruct (List.length fields =? 15)%nat; [|exact Hpins].
    destruct (0 <? String.length (nth 13 fields ""))%nat;
      destruct (0 <? String.length (nth 1 fields ""))%nat;
      repeat apply push_pin_well_found; exact Hpins.
Qed.

Lemma InitPins_well_found (export_lines readall_lines : list (list string)) :
  forall pins : list CGpioPin,
    Forall (well_found export_lines) pins ->
    Forall (well_found export_lines)
      (snd (InitPins export_lines readall_lines pins)).
Proof.
  unfold InitPins; cbn [snd].
  induction readall_lines as [|fields readall_lines IH]; intros pins Hpins;
    simpl; [exact Hpins|].
  apply IH. now apply read_line_well_found.
Qed.

Lemma hook_handlers_known (export_lines : list (list string))
    (pins : list CGpioPin) :
  Forall (well_found export_lines) pins ->
  hook_handlers pins
    = map (fun pin => ev_wiringPiISR (GetId pin))
        (filter (fun pin => GetIsExported pin && GetIsInput pin) pins).
Proof.
  induction 1 as [|pin pins (Hrange & _) _ IH]; [reflexivity|].
  unfold hook_handlers in *. cbn [flat_map filter]. rewrite IH.
  unfold hook at 1. unfold MAX_GPIO in Hrange.
  destruct (GetIsExported pin && GetIsInput pin); [|reflexivity].
  replace ((0 <=? GetId pin)%Z && (GetId pin <=? 31)%Z) with true;
    [reflexivity|].
  symmetry. apply andb_true_iff. split; apply Z.leb_le; lia.
Qed.

(** X20: whatever order [std::sort] gives the list, every pin [InitPins]
    found has a number from 0 to [MAX_GPIO], is marked exported exactly when
    the export lines marked its number, and is not both input and output;
    so [StartHardware] hooks a handler for every exported input pin of the
    list and never meets an unknown number, [GetPPinById] returns only a pin
    with the number asked for, and [InitPins] returns false exactly when
    the list is empty. *)
Theorem found_pins_have_handlers :
  forall (export_lines readall_lines : list (list string))
         (pins : list CGpioPin),
    Permutation (snd (InitPins export_lines readall_lines [])) pins ->
    Forall (well_found export_lines) pins /\
    hook_handlers pins
      = map (fun pin => ev_wiringPiISR (GetId pin))
          (filter (fun pin => GetIsExported pin && GetIsInput pin) pins) /\
    (forall id pin, GetPPinById pins id = Some pin ->
       GetId pin = id /\ (0 <= id <= MAX_GPIO)%Z) /\
    fst (InitPins export_lines readall_lines [])
      = negb (match pins with [] => true | _ => false end).
Proof.
  intros export_lines readall_lines pins Hperm.
  assert (Hall : Forall (well_found export_lines) pins).
  { apply (Permutation_Forall Hperm).
    apply InitPins_well_found. constructor. }
  split; [exact Hall|].
  split; [now apply (hook_handlers_known export_lines)|].
  split.
  - intros id pin. clear Hperm.
    induction Hall as [|it rest Hit _ IH]; simpl; [discriminate|].
    destruct (GetId it =? id)%Z eqn:Hid.
    + intros [= <-]. apply Z.eqb_eq in Hid. subst id.
      split; [reflexivity | apply Hit].
    + exact IH.
  - apply Permutation_length in Hperm. unfold InitPins in *. cbn [fst snd] in *.
    destruct pins; simpl in Hperm; rewrite Hperm; reflexivity.
Qed.

End PinProperties.

(** * Further concrete runs *)

(** X1, at a client that upgrades and then receives a close frame. *)
Lemma mode_only_moves_forward_witness :
  run (collab := Sample.collaborators)
    [call_read_done success 7 "GET /ws"; call_write_done success;
     call_read_done success 5 "CLOSE"] Sample.client = Some Sample.closing /\
  (mode_rank (connection_type Sample.client)
     <= mode_rank (connection_type Sample.closing))%nat.
Proof.
  assert (Hrun : run (collab := Sample.collaborators)
                   [call_read_done success 7 "GET /ws";
                    call_write_done success;
                    call_read_done success 5 "CLOSE"] Sample.client
                 = Some Sample.closing) by (vm_compute; reflexivity).
  split; [exact Hrun|].
  exact (proj1 (mode_only_moves_forward (collab := Sample.collaborators)
                  _ _ _ Hrun)).
Defined.

(** X2, at an upgraded connection that is fed what looks like a request. *)
Lemma no_request_dispatched_after_upgrade_witness :
  connection_type Sample.upgraded <> connection_http /\
  exists c',
    run (collab := Sample.collaborators)
      [call_read_done success 7 "GET /ka"; call_timeout success]
      Sample.upgraded = Some c' /\
    requests_of (log c') = requests_of (log Sample.upgraded).
Proof.
  assert (Hmode : connection_type Sample.upgraded <> connection_http)
    by discriminate.
  split; [exact Hmode|].
  eexists. split; [vm_compute; reflexivity|].
  match goal with
  | |- requests_of (log ?c') = _ =>
      assert (Hrun : run (collab := Sample.collaborators)
                       [call_read_done success 7 "GET /ka";
                        call_timeout success] Sample.upgraded = Some c')
        by (vm_compute; reflexivity);
      exact (proj1 (no_request_dispatched_after_upgrade
                      (collab := Sample.collaborators) _ _ c' Hmode Hrun))
  end.
Defined.

(** X3, at a keep-alive request on a fresh connection. *)
Lemma reads_and_timer_arms_go_together_witness :
  run (collab := Sample.collaborators)
    [call_start "::ffff:10.0.0.5"; call_read_done success 7 "GET /ka"]
    (new_connection false 20) = Some Sample.answering /\
  timeout_ Sample.answering = 20%Z /\
  exists k,
    reads_of (log Sample.answering) = k /\
    arms_of (log Sample.answering) = repeat 20%Z k.
Proof.
  assert (Hrun : run (collab := Sample.collaborators)
                   [call_start "::ffff:10.0.0.5";
                    call_read_done success 7 "GET /ka"]
                   (new_connection false 20) = Some Sample.answering)
    by (vm_compute; reflexivity).
  split; [exact Hrun|].
  destruct (reads_and_timer_arms_go_together (collab := Sample.collaborators)
              _ _ _ Hrun) as (Hto & k & Hreads & Harms).
  split; [exact Hto|]. exists k. split; [exact Hreads | exact Harms].
Defined.

(** X4, at the completions a closed socket delivers. *)
Lemma cancelled_completions_are_inert_witness :
  exists c',
    run (collab := Sample.collaborators)
      [call_read_done operation_aborted 0 ""; call_timeout operation_aborted;
       call_write_done operation_aborted] Sample.upgraded = Some c' /\
    filter is_teardown (log c') = filter is_teardown (log Sample.upgraded) /\
    wire c' = wire Sample.upgraded.
Proof.
  eexists. split; [vm_compute; reflexivity|].
  match goal with
  | |- filter is_teardown (log ?c') = _ /\ _ =>
      assert (Hrun : run (collab := Sample.collaborators)
                       [call_read_done operation_aborted 0 "";
                        call_timeout operation_aborted;
                        call_write_done operation_aborted] Sample.upgraded
                     = Some c') by (vm_compute; reflexivity);
      destruct (cancelled_completions_are_inert
                  (collab := Sample.collaborators)
                  [call_read_done operation_aborted 0 "";
                   call_timeout operation_aborted;
                   call_write_done operation_aborted]
                  Sample.upgraded c' eq_refl Hrun)
        as (Hwire & _ & _ & Htear & _)
  end.
  split; [exact Htear | exact Hwire].
Defined.

(** X5, at a new secure connection. *)
Lemma secure_connection_reads_after_handshake_witness :
  secure_ (new_connection true 20) = true /\
  log (start "10.0.0.5" (new_connection true 20)) = [ev_async_handshake] /\
  log (handle_handshake success (start "10.0.0.5" (new_connection true 20)))
    = [ev_async_handshake; ev_timer_expires_from_now 20; ev_async_read_some].
Proof.
  split; [reflexivity|].
  destruct (secure_connection_reads_after_handshake "10.0.0.5"
              (new_connection true 20) eq_refl) as (_ & Hstart & Hdone & _).
  split; [exact Hstart | exact Hdone].
Defined.

(** X6, at two write requests in a row. *)
Lemma queued_buffers_are_not_stranded_witness :
  exists c',
    run (collab := Sample.collaborators) [call_MyWrite "a"; call_MyWrite "b"]
      (new_connection false 20) = Some c' /\
    writeQ c' = ["b"] /\
    write_in_progress c' = true /\
    exists c'',
      complete_write success c' = Some c'' /\ wire c'' = wire c' ++ ["b"].
Proof.
  eexists. split; [vm_compute; reflexivity|].
  split; [reflexivity|].
  match goal with
  | |- write_in_progress ?c' = true /\ _ =>
      assert (Hrun : run (collab := Sample.collaborators)
                       [call_MyWrite "a"; call_MyWrite "b"]
                       (new_connection false 20) = Some c')
        by (vm_compute; reflexivity);
      destruct (queued_buffers_are_not_stranded
                  (collab := Sample.collaborators) false 20
                  [call_MyWrite "a"; call_MyWrite "b"] c' eq_refl Hrun
                  "b" [] eq_refl)
        as (Hbusy & _ & c'' & Hdone & Hwire & _)
  end.
  split; [exact Hbusy|]. exists c''. split; [exact Hdone | exact Hwire].
Defined.

(** The sample decoder sees nothing but a partial request in the one chunk
    ["GE"]. *)
Lemma sample_chunk_is_partial :
  forall seen rest : list string,
    ["GE"] = seen ++ rest -> seen <> [] ->
    exists req k,
      request_parser_parse (Collaborators := Sample.collaborators)
        (buf_ Sample.client ++ joined seen)%string
        = parse_returns tb_indeterminate req k.
Proof.
  intros seen rest Hsplit Hseen.
  destruct seen as [|a [|b seen]]; [congruence| |].
  - injection Hsplit as <- _. exists empty_request, 2%nat.
    vm_compute. reflexivity.
  - destruct seen; discriminate Hsplit.
Defined.

Lemma sample_chunk_not_empty : Forall (fun chunk => chunk <> "") ["GE"].
Proof. constructor; [discriminate | constructor]. Defined.

(** X7, at the first two bytes of a request. *)
Lemma partial_requests_accumulate_witness :
  connection_type Sample.client = connection_http /\
  buf_ (feed (collab := Sample.collaborators) ["GE"] Sample.client) = "GE" /\
  wire (feed (collab := Sample.collaborators) ["GE"] Sample.client) = [] /\
  reads_of (log (feed (collab := Sample.collaborators) ["GE"] Sample.client))
    = 2%nat.
Proof.
  split; [reflexivity|].
  destruct (partial_requests_accumulate (collab := Sample.collaborators)
              ["GE"] Sample.client eq_refl sample_chunk_not_empty
              sample_chunk_is_partial)
    as (Hbuf & Hreads & Hwire & _).
  split; [exact Hbuf|]. split; [exact Hwire | exact Hreads].
Defined.

(** X8, at a keep-alive request that arrives in two pieces. *)
Lemma split_delivery_matches_single_delivery_witness :
  wire (handle_read (collab := Sample.collaborators) success 5 "T /ka"
          (feed (collab := Sample.collaborators) ["GE"] Sample.client))
    = wire (handle_read (collab := Sample.collaborators) success 7 "GET /ka"
              Sample.client) /\
  wire (handle_read (collab := Sample.collaborators) success 7 "GET /ka"
          Sample.client) = ["200 hello 10.0.0.5"].
Proof.
  split; [|vm_compute; reflexivity].
  assert (Hlast : "T /ka"%string <> ""%string) by discriminate.
  destruct (split_delivery_matches_single_delivery
              (collab := Sample.collaborators) ["GE"] "T /ka" Sample.client
              eq_refl sample_chunk_not_empty Hlast sample_chunk_is_partial)
    as (_ & _ & _ & _ & _ & _ & _ & Hwire & _).
  exact Hwire.
Defined.

(** X9, at a request that fills the buffer. *)
Lemma decoded_request_leaves_the_buffer_witness :
  request_parser_parse (Collaborators := Sample.collaborators)
    (buf_ Sample.client ++ substr 0 7 "GET /ka")%string
    = parse_returns tb_true Sample.keep_alive_request 7 /\
  buf_ (handle_read (collab := Sample.collaborators) success 7 "GET /ka"
          Sample.client) = "".
Proof.
  assert (Hparse : request_parser_parse (Collaborators := Sample.collaborators)
                     (buf_ Sample.client ++ substr 0 7 "GET /ka")%string
                   = parse_returns tb_true Sample.keep_alive_request 7)
    by (vm_compute; reflexivity).
  split; [exact Hparse|].
  assert (Hpos : (0 < 7)%nat) by lia.
  destruct (decoded_request_leaves_the_buffer (collab := Sample.collaborators)
              7 "GET /ka" Sample.client Sample.keep_alive_request 7
              Hpos eq_refl Hparse) as [Hrest _].
  apply (Hrest "GET /ka"%string ""%string); reflexivity.
Defined.

(** X10, at the peer's close frame on an upgraded connection. *)
Lemma framed_read_outcome_witness :
  connection_type Sample.settled <> connection_http /\
  connection_type
    (handle_read (collab := Sample.collaborators) success 5 "CLOSE"
       Sample.settled) = connection_closing /\
  reads_of (log (handle_read (collab := Sample.collaborators) success 5
                   "CLOSE" Sample.settled)) = reads_of (log Sample.settled).
Proof.
  assert (Hmode : connection_type Sample.settled <> connection_http)
    by discriminate.
  split; [exact Hmode|].
  assert (Hpos : (0 < 5)%nat) by lia.
  assert (Hparse : websocket_parse (Collaborators := Sample.collaborators)
                     (buf_ Sample.settled ++ substr 0 5 "CLOSE")%string
                     (keepalive_ Sample.settled) = (tb_true, 5%nat, false))
    by (vm_compute; reflexivity).
  destruct (framed_read_outcome (collab := Sample.collaborators)
              5 "CLOSE" Sample.settled tb_true 5 false Hpos Hmode Hparse)
    as (_ & _ & Hout).
  cbn [tribool_is_true negb andb] in Hout.
  destruct Hout as (Hclosing & Hreads & _).
  split; [exact Hclosing | exact Hreads].
Defined.

(** X11, at a request that arrives while nothing is being written. *)
Lemma complete_request_gets_one_response_witness :
  write_in_progress Sample.client = false /\
  wire (handle_read (collab := Sample.collaborators) success 7 "GET /ka"
          Sample.client)
    = wire Sample.client
      ++ [reply_to_string (Collaborators := Sample.collaborators)
            (handle_request (Collaborators := Sample.collaborators)
               (dispatched (collab := Sample.collaborators)
                  Sample.keep_alive_request Sample.client))
            (method Sample.keep_alive_request)].
Proof.
  split; [reflexivity|].
  assert (Hpos : (0 < 7)%nat) by lia.
  assert (Hparse : request_parser_parse (Collaborators := Sample.collaborators)
                     (buf_ Sample.client ++ substr 0 7 "GET /ka")%string
                   = parse_returns tb_true Sample.keep_alive_request 7)
    by (vm_compute; reflexivity).
  pose proof (complete_request_gets_one_response
                (collab := Sample.collaborators) 7 "GET /ka" Sample.client
                Sample.keep_alive_request 7 Hpos eq_refl Hparse) as H.
  change (write_in_progress Sample.client) with false in H.
  exact (proj2 (proj2 H)).
Defined.

(** X12, at a request that does not ask to keep the connection. *)
Lemma response_completion_closes_or_keeps_open_witness :
  exists c2,
    complete_write success
      (handle_read (collab := Sample.collaborators) success 5 "GET /"
         Sample.client) = Some c2 /\
    log c2
      = log (handle_read (collab := Sample.collaborators) success 5 "GET /"
               Sample.client)
        ++ [ev_socket_shutdown; ev_manager_stop].
Proof.
  assert (Hpos : (0 < 5)%nat) by lia.
  assert (Hparse : request_parser_parse (Collaborators := Sample.collaborators)
                     (buf_ Sample.client ++ substr 0 5 "GET /")%string
                   = parse_returns tb_true (mk_request "GET" [] false "") 5)
    by (vm_compute; reflexivity).
  assert (Hstatus : status (handle_request
                              (Collaborators := Sample.collaborators)
                              (dispatched (collab := Sample.collaborators)
                                 (mk_request "GET" [] false "")
                                 Sample.client)) <> switching_protocols)
    by (vm_compute; discriminate).
  destruct (response_completion_closes_or_keeps_open
              (collab := Sample.collaborators) 5 "GET /" Sample.client
              (mk_request "GET" [] false "") 5 Hpos eq_refl eq_refl eq_refl
              eq_refl Hparse Hstatus)
    as (_ & c2 & Hdone & _ & _ & _ & Hlog).
  exists c2. split; [exact Hdone | exact Hlog].
Defined.

(** Sample clock readings are in range. *)
Lemma sample_readings_normalised :
  normalised (mk_timeval 100 250000) /\ normalised (mk_timeval 99 750000) /\
  normalised (mk_timeval 0 0) /\ normalised (mk_timeval 0 60000) /\
  normalised (mk_timeval 4294 968296).
Proof. unfold normalised; cbn [tv_sec tv_usec]. repeat split; lia. Defined.

(** X13, at two readings half a second apart, the subtrahend with the larger
    microsecond field. *)
Lemma timeval_subtract_normalised_witness :
  (32 <= 64)%Z /\
  normalised (mk_timeval 100 250000) /\ normalised (mk_timeval 99 750000) /\
  micros (snd (fst (timeval_subtract 64 (mk_timeval 100 250000)
                      (mk_timeval 99 750000))))
    = (micros (mk_timeval 100 250000) - micros (mk_timeval 99 750000))%Z.
Proof.
  assert (Hwide : (32 <= 64)%Z) by lia.
  destruct sample_readings_normalised as (Hx & Hy & _).
  split; [exact Hwide|]. split; [exact Hx|]. split; [exact Hy|].
  exact (proj1 (timeval_subtract_normalised 64 Hwide _ _ Hx Hy)).
Defined.

(** X14, at a first interrupt 60 ms after the stopwatch was reset, with a
    period of 50 ms. *)
Lemma interrupt_is_queued_after_the_period_witness :
  (micros (mk_timeval 0 60000) - micros (tvBegin GpioSample.quiet 17)
     < 2147483648)%Z /\
  gpioInterruptQueue
    (pushInterrupt 64 17 (mk_timeval 0 60000) (mk_timeval 0 60010)
       GpioSample.quiet) = [17%Z].
Proof.
  assert (Hwide : (32 <= 64)%Z) by lia.
  assert (Hgap : (micros (mk_timeval 0 60000)
                    - micros (tvBegin GpioSample.quiet 17) < 2147483648)%Z)
    by (vm_compute; reflexivity).
  split; [exact Hgap|].
  destruct sample_readings_normalised as (_ & _ & Hzero & Hnow & _).
  pose proof (proj2 (proj2 (interrupt_is_queued_after_the_period 64 Hwide 17
                              (mk_timeval 0 60000) (mk_timeval 0 60010)
                              GpioSample.quiet Hnow Hzero Hgap))) as H.
  change (to_uint (m_period GpioSample.quiet * 1000)
            <? micros (mk_timeval 0 60000)
               - micros (tvBegin GpioSample.quiet 17))%Z with true in H.
  exact (proj2 H).
Defined.

Lemma sample_pins_handled : Forall handled_pin GpioSample.bounce.
Proof. repeat constructor; cbn; unfold MAX_GPIO; lia. Defined.

(** X15, at a bouncing pin. *)
Lemma interrupt_queue_never_overflows_witness :
  Forall handled_pin GpioSample.bounce /\
  NoDup (gpioInterruptQueue
           (gpio_run 64 GpioSample.bounce GpioSample.quiet)) /\
  gpioInterruptQueue (gpio_run 64 GpioSample.bounce GpioSample.quiet)
    = [17%Z; 18%Z].
Proof.
  split; [exact sample_pins_handled|].
  split; [|vm_compute; reflexivity].
  exact (proj1 (interrupt_queue_never_overflows 64 GpioSample.bounce
                  GpioSample.quiet (NoDup_nil Z) (Forall_nil _)
                  sample_pins_handled)).
Defined.

(** X16, at an interrupt that arrives 2^32 + 1000 microseconds after the
    previous one: it is dropped as if it had come after one millisecond. *)
Lemma long_gaps_wrap_around_witness :
  (micros (tvBegin GpioSample.quiet 17)
     <= micros (mk_timeval 4294 968296))%Z /\
  (to_uint (m_period GpioSample.quiet * 1000)
     < micros (mk_timeval 4294 968296)
       - micros (tvBegin GpioSample.quiet 17))%Z /\
  gpioInterruptQueue
    (pushInterrupt 64 17 (mk_timeval 4294 968296) (mk_timeval 4294 968300)
       GpioSample.quiet) = [].
Proof.
  assert (Hwide : (32 <= 64)%Z) by lia.
  assert (Hlong : (64 <= 64)%Z) by lia.
  assert (Horder : (micros (tvBegin GpioSample.quiet 17)
                      <= micros (mk_timeval 4294 968296))%Z)
    by (vm_compute; discriminate).
  split; [exact Horder|]. split; [vm_compute; reflexivity|].
  destruct sample_readings_normalised as (_ & _ & Hzero & _ & Hnow).
  pose proof (long_gaps_wrap_around 64 Hwide 17 (mk_timeval 4294 968296)
                (mk_timeval 4294 968300) GpioSample.quiet Hlong Hnow Hzero
                Horder) as H.
  change (to_uint (m_period GpioSample.quiet * 1000)
            <? (micros (mk_timeval 4294 968296)
                - micros (tvBegin GpioSample.quiet 17)) mod 2 ^ 32)%Z
    with false in H.
  exact H.
Defined.

Lemma sample_type_is_byte :
  (0 <= pTypeLighting1 (Externals := GpioSample.externals) < 256)%Z.
Proof. cbn. lia. Defined.

Lemma sample_subtype_is_byte :
  (0 <= sTypeIMPULS (Externals := GpioSample.externals) < 256)%Z.
Proof. cbn. lia. Defined.

(** X18, at the packet reported for a rising edge on pin 17. *)
Lemma status_packet_is_an_accepted_command_witness :
  exists p,
    In p (sent (hardware_log
                  (status_run (externals := GpioSample.externals)
                     [process_interrupt 17 GpioSample.row_off 1]
                     (new_CGpio (externals := GpioSample.externals) 1
                        GpioSample.raw)))) /\
    fst (WriteToHardware (externals := GpioSample.externals) p 0
           (new_CGpio (externals := GpioSample.externals) 1 GpioSample.raw))
      = true.
Proof.
  eexists. split; [vm_compute; left; reflexivity|].
  match goal with
  | |- fst (WriteToHardware ?p _ _) = true =>
      assert (Hin : In p (sent (hardware_log
                     (status_run (externals := GpioSample.externals)
                        [process_interrupt 17 GpioSample.row_off 1]
                        (new_CGpio (externals := GpioSample.externals) 1
                           GpioSample.raw)))))
        by (vm_compute; left; reflexivity);
      rewrite (status_packet_is_an_accepted_command
                 (externals := GpioSample.externals) _ _ _ p 0
                 (new_CGpio (externals := GpioSample.externals) 1
                    GpioSample.raw) sample_type_is_byte
                 sample_subtype_is_byte Hin)
  end.
  reflexivity.
Defined.

(** X19, at the round after a bouncing pin and a second pin fired. *)
Lemma worker_round_processes_the_queue_in_order_witness :
  List.length GpioSample.readings
    = List.length
        (gpioInterruptQueue
           (gpio_run 64 GpioSample.bounce GpioSample.quiet)) /\
  queries
    (hardware_log
       (snd (Do_Work_round (externals := GpioSample.externals)
               GpioSample.readings
               (gpio_run 64 GpioSample.bounce GpioSample.quiet)
               (new_CGpio (externals := GpioSample.externals) 1
                  GpioSample.raw))))
    = [(1%Z, 17%Z); (1%Z, 18%Z)].
Proof.
  assert (Hlen : List.length GpioSample.readings
                 = List.length
                     (gpioInterruptQueue
                        (gpio_run 64 GpioSample.bounce GpioSample.quiet)))
    by (vm_compute; reflexivity).
  split; [exact Hlen|].
  destruct (worker_round_processes_the_queue_in_order
              (externals := GpioSample.externals) GpioSample.readings
              (gpio_run 64 GpioSample.bounce GpioSample.quiet)
              (new_CGpio (externals := GpioSample.externals) 1
                 GpioSample.raw) Hlen) as (_ & _ & _ & Hqueries).
  rewrite Hqueries. vm_compute. reflexivity.
Defined.

(** X20, at a table with an exported input, a pin that is not exported and
    a number out of range. *)
Lemma found_pins_have_handlers_witness :
  Permutation
    (snd (InitPins (externals := GpioSample.externals)
            GpioSample.export_lines GpioSample.readall_lines []))
    (snd (InitPins (externals := GpioSample.externals)
            GpioSample.export_lines GpioSample.readall_lines [])) /\
  hook_handlers
    (snd (InitPins (externals := GpioSample.externals)
            GpioSample.export_lines GpioSample.readall_lines []))
    = [ev_wiringPiISR 17].
Proof.
  split; [apply Permutation_refl|].
  destruct (found_pins_have_handlers (externals := GpioSample.externals)
              GpioSample.export_lines GpioSample.readall_lines _
              (Permutation_refl _)) as (_ & Hhooks & _).
  rewrite Hhooks. vm_compute. reflexivity.
Defined.
